(** * QuickDo: the task record codec, the task store and the report

    A shallow embedding of [main.py].  Python [str] values are sequences of
    Unicode code points; integers are unbounded ([Z]); the code's [print]
    calls and file writes are kept as an explicit list of events. *)

From Stdlib Require Import ZArith NArith Lia Bool Ascii String.
From stdpp Require Import base tactics option list numbers.

Local Open Scope N_scope.

(** ** Python strings *)

Abbreviation char := N (only parsing).
Abbreviation str := (list N) (only parsing).

(** An ASCII literal as a sequence of code points. *)
Definition lit (s : string) : str := map N_of_ascii (list_ascii_of_string s).

Definition str_eqb (a b : str) : bool := bool_decide (a = b).

(** [Py_UNICODE_ISSPACE]: the test behind [str.strip()] and behind the
    regular expression classes [\s] and [\S] on [str] patterns. *)
Definition is_space (c : char) : bool :=
  ((9 <=? c) && (c <=? 13)) || ((28 <=? c) && (c <=? 32))
  || (c =? 133) || (c =? 160) || (c =? 5760)
  || ((8192 <=? c) && (c <=? 8202))
  || (c =? 8232) || (c =? 8233) || (c =? 8239) || (c =? 8287) || (c =? 12288).

Fixpoint lstrip (s : str) : str :=
  match s with
  | [] => []
  | c :: s' => if is_space c then lstrip s' else s
  end.

Fixpoint rstrip (s : str) : str :=
  match s with
  | [] => []
  | c :: s' =>
      match rstrip s' with
      | [] => if is_space c then [] else [c]
      | r => c :: r
      end
  end.

(** [s.strip()] *)
Definition strip (s : str) : str := rstrip (lstrip s).

(** [s.split(sep)] for a one-character separator: never the empty list. *)
Fixpoint split (sep : char) (s : str) : list str :=
  match s with
  | [] => [[]]
  | c :: s' =>
      if c =? sep then [] :: split sep s'
      else match split sep s' with
           | f :: fs => (c :: f) :: fs
           | [] => [[c]]
           end
  end.

(** [sep.join(parts)] *)
Fixpoint join (sep : str) (parts : list str) : str :=
  match parts with
  | [] => []
  | [p] => p
  | p :: ps => p ++ sep ++ join sep ps
  end.

Definition bar : char := 124.

(** ** The pattern [due:(\S+)] *)

Fixpoint strip_prefix (p s : str) : option str :=
  match p, s with
  | [], _ => Some s
  | a :: p', b :: s' => if a =? b then strip_prefix p' s' else None
  | _ :: _, [] => None
  end.

Fixpoint nonspace_run (s : str) : str :=
  match s with
  | [] => []
  | c :: s' => if is_space c then [] else c :: nonspace_run s'
  end.

(** A match of the pattern anchored at the head of [s]: the text of group 1.
    [\S+] is greedy and nothing follows it, so the group is the longest run. *)
Definition match_due_here (s : str) : option str :=
  match strip_prefix (lit "due:") s with
  | Some rest =>
      match nonspace_run rest with
      | [] => None
      | g => Some g
      end
  | None => None
  end.

Fixpoint search_due_from (i : nat) (s : str) : option (nat * str) :=
  match match_due_here s with
  | Some g => Some (i, g)
  | None =>
      match s with
      | [] => None
      | _ :: s' => search_due_from (S i) s'
      end
  end.

(** [re.search(r'due:(\S+)', s)]: the leftmost match, as the pair of
    [m.start()] and [m.group(1)]. *)
Definition re_search_due (s : str) : option (nat * str) := search_due_from 0 s.

(** ** Task *)

Record Task := mkTask {
  title : str;
  due_date : option str;
  priority : str;
  category : str;
  completed : bool;
  created_at : str
}.

Global Instance Task_eq_dec : EqDecision Task.
Proof. solve_decision. Defined.

(** Truth value of [self.due_date]: [None] and the empty string are false. *)
Definition truthy (d : option str) : bool :=
  match d with
  | Some (_ :: _) => true
  | _ => false
  end.

Definition due_str (t : Task) : str :=
  match due_date t with
  | Some d => if truthy (Some d) then lit " due:" ++ d else []
  | None => []
  end.

Definition completed_mark (t : Task) : str :=
  if completed t then lit "+" else lit "-".

(** [Task.to_string] *)
Definition to_string (t : Task) : str :=
  completed_mark t ++ [bar] ++ created_at t ++ [bar] ++ priority t ++ [bar]
    ++ category t ++ [bar] ++ title t ++ due_str t.

(** Exceptions the modelled code can raise. *)
Inductive exn :=
| NotEnoughValues (expected got : nat)   (* ValueError, star-unpacking *)
| InvalidLiteral (s : str)               (* ValueError, int() *)
| IndexOutOfRange                  (* IndexError *)
| TimeDataMismatch (s : str).            (* ValueError, strptime *)

Inductive res (A : Type) :=
| Ok (a : A)
| Raise (e : exn).
Arguments Ok {A} a.
Arguments Raise {A} e.

(** The [try] block of [Task.from_string].  The constructor call
    [cls(title)] sets defaults that the assignments after it overwrite. *)
Definition from_string_body (line : str) : res Task :=
  match split bar (strip line) with
  | mark :: created :: prio :: cat :: title_parts =>
      let title_full := join [bar] title_parts in
      let '(ttl, due) :=
        match re_search_due title_full with
        | Some (start, g) => (strip (take start title_full), Some g)
        | None => (strip title_full, None)
        end in
      Ok {| title := ttl; due_date := due; priority := prio; category := cat;
            completed := str_eqb mark (lit "+"); created_at := created |}
  | parts => Raise (NotEnoughValues 4 (length parts))
  end.

(** ** Output and storage events *)

(** What the program prints, one constructor per [print] call of the source
    (its text, in Russian, is given in English); the interpolated values are
    the arguments. *)
Inductive message :=
| MsgReadError (line : str)       (* error while reading the task: {line} *)
| MsgCause (e : exn)              (* cause: {e} *)
| MsgNoTasks                      (* no active tasks *)
| MsgListHeader                   (* current tasks: *)
| MsgTaskLine (i : Z) (status priority_symbol ttl category_str due : str)
    (* {i}. [{status}] {priority_symbol} {task.title} {category_str}{due_str} *)
| MsgCompleted (ttl : str)        (* task "{task.title}" marked as completed *)
| MsgInvalidNumber                (* invalid task number *)
| MsgUnsupportedPeriod            (* unsupported report period *)
| MsgReportHeader (period : str)  (* report for {period}: *)
| MsgReportCompleted (n : Z)      (* completed: {completed} tasks *)
| MsgReportRemaining (n : Z)      (* remaining: {remaining} tasks *)
| MsgByCategory                   (* by category: *)
| MsgCategoryLine (c : str) (n : Z).   (* - {category}: {count} tasks *)

Inductive event :=
| Print (m : message)
| WriteTasksFile (data : str).   (* open(tasks_file, 'w') and the writes *)

(** [Task.from_string]: the [except] clause prints the line and the cause
    and returns [None]. *)
Definition from_string (line : str) : option Task * list event :=
  match from_string_body line with
  | Ok t => (Some t, [])
  | Raise e => (None, [Print (MsgReadError line); Print (MsgCause e)])
  end.

(** ** QuickDo: the task store *)

Record QuickDo := mkQuickDo {
  tasks : list Task;
  tasks_file : str       (* the text of ~/.quickdo/tasks.txt *)
}.

Definition newline : char := 10.

(** Text mode reading translates "\r\n" and "\r" to "\n". *)
Fixpoint universal_newlines (s : str) : str :=
  match s with
  | [] => []
  | c :: s' =>
      if c =? 13 then
        match s' with
        | d :: s'' => if d =? 10 then 10 :: universal_newlines s''
                      else 10 :: universal_newlines s'
        | [] => [10]
        end
      else c :: universal_newlines s'
  end.

(** [for line in f]: every line keeps its newline; the last may lack one. *)
Fixpoint lines_of (s : str) : list str :=
  match s with
  | [] => []
  | c :: s' =>
      if c =? newline then [c] :: lines_of s'
      else match lines_of s' with
           | [] => [[c]]
           | l :: ls => (c :: l) :: ls
           end
  end.

(** The loop of [load_tasks], [acc] being [tasks]. *)
Fixpoint load_loop (lines : list str) (acc : list Task) : list Task * list event :=
  match lines with
  | [] => (acc, [])
  | line :: rest =>
      match strip line with
      | [] => load_loop rest acc
      | _ :: _ =>
          let '(task, out) := from_string line in
          let acc' := match task with
                      | Some t => acc ++ [t]
                      | None => acc
                      end in
          let '(ts, out') := load_loop rest acc' in
          (ts, out ++ out')
      end
  end.

Definition load_tasks (file : str) : list Task * list event :=
  load_loop (lines_of (universal_newlines file)) [].

Definition serialize (ts : list Task) : str :=
  concat (map (fun t => to_string t ++ [newline]) ts).

(** [save_tasks] *)
Definition save_tasks (q : QuickDo) : QuickDo * list event :=
  let data := serialize (tasks q) in
  ({| tasks := tasks q; tasks_file := data |}, [WriteTasksFile data]).

Definition priority_symbol (p : str) : str :=
  if str_eqb p (lit "high") then [10071]
  else if str_eqb p (lit "medium") then [9642]
  else if str_eqb p (lit "low") then [183]
  else [9642].

Definition task_line (i : Z) (t : Task) : message :=
  let status := if completed t then [10003] else lit "-" in
  let due := match due_date t with
             | Some d => if truthy (Some d) then lit " [" ++ d ++ lit "]" else []
             | None => []
             end in
  let category_str := lit "[" ++ category t ++ lit "]" in
  MsgTaskLine i status (priority_symbol (priority t)) (title t) category_str due.

(** The loop of [list_tasks] over [enumerate(self.tasks, i)]. *)
Fixpoint list_loop (show_completed : bool) (i : Z) (ts : list Task) : list event :=
  match ts with
  | [] => []
  | t :: ts' =>
      if completed t && negb show_completed
      then list_loop show_completed (i + 1) ts'
      else Print (task_line i t) :: list_loop show_completed (i + 1) ts'
  end.

(** [list_tasks] *)
Definition list_tasks (show_completed : bool) (q : QuickDo) : list event :=
  match tasks q with
  | [] => [Print MsgNoTasks]
  | _ :: _ => Print MsgListHeader :: list_loop show_completed 1 (tasks q)
  end.

Definition set_completed (t : Task) : Task :=
  {| title := title t; due_date := due_date t; priority := priority t;
     category := category t; completed := true; created_at := created_at t |}.

(** [complete_task].  The tasks are objects shared with the list, so the
    assignment to [task.completed] updates the list element in place. *)
Definition complete_task (task_id : Z) (q : QuickDo) : res QuickDo * list event :=
  if ((1 <=? task_id) && (task_id <=? Z.of_nat (length (tasks q))))%Z then
    match tasks q !! Z.to_nat (task_id - 1) with
    | Some task =>
        let q1 := {| tasks := alter set_completed (Z.to_nat (task_id - 1)) (tasks q);
                     tasks_file := tasks_file q |} in
        let '(q2, out) := save_tasks q1 in
        (Ok q2, out ++ [Print (MsgCompleted (title task))])
    | None => (Raise IndexOutOfRange, [])
    end
  else (Ok q, [Print MsgInvalidNumber]).

(** ** Reminder delays *)

Definition digit_value (c : char) : option Z :=
  if (48 <=? c) && (c <=? 57) then Some (Z.of_N c - 48)%Z else None.

(** White space for [int()]: Unicode white space is first turned into
    blanks, but only outside ASCII; of the ASCII characters the conversion
    skips 9 to 13 and the blank, not the separators 28 to 31. *)
Definition is_int_space (c : char) : bool :=
  is_space c && negb ((28 <=? c) && (c <=? 31)).

Fixpoint skip_int_space (s : str) : str :=
  match s with
  | [] => []
  | c :: s' => if is_int_space c then skip_int_space s' else s
  end.

(** The digits of an integer literal and the white space after them:
    single underscores may separate digits.  [prev] tells whether the
    previous character was a digit. *)
Fixpoint int_digits (acc : Z) (prev : bool) (s : str) : option Z :=
  match s with
  | [] => if prev then Some acc else None
  | c :: s' =>
      match digit_value c with
      | Some d => int_digits (10 * acc + d)%Z true s'
      | None =>
          if (c =? 95) && prev then int_digits acc false s'
          else if prev && forallb is_int_space s then Some acc
          else None
      end
  end.

(** [int(s)] on text whose digits are ASCII: white space at both ends is
    ignored and one sign is allowed.  (Decimal digits of other scripts and
    the limit on the number of digits are left out.) *)
Definition py_int (s : str) : res Z :=
  let body := skip_int_space s in
  let '(sign, ds) :=
    match body with
    | c :: ds' => if c =? 43 then (1%Z, ds')
                  else if c =? 45 then ((-1)%Z, ds')
                  else (1%Z, body)
    | [] => (1%Z, body)
    end in
  match int_digits 0 false ds with
  | Some v => Ok (sign * v)%Z
  | None => Raise (InvalidLiteral s)
  end.

(** [c.lower()], exact on ASCII.  The lower case of a character outside
    ASCII is never 'm', 'h' or 'd', so the lookup in [units] does not see
    the difference. *)
Definition lower (c : char) : char :=
  if (65 <=? c) && (c <=? 90) then c + 32 else c.

(** [units.get(unit, 60)] with [units = {'m': 60, 'h': 3600, 'd': 86400}] *)
Definition units_get (unit : char) : Z :=
  if unit =? 109 then 60%Z
  else if unit =? 104 then 3600%Z
  else if unit =? 100 then 86400%Z
  else 60%Z.

(** [parse_delay], the local function of [remind]: seconds.  [c] is
    [delay_str[-1]] and [rev front] is [delay_str[:-1]]. *)
Definition parse_delay (delay_str : str) : res Z :=
  match rev delay_str with
  | [] => Raise IndexOutOfRange
  | c :: front =>
      let unit := lower c in
      match py_int (rev front) with
      | Raise e => Raise e
      | Ok value => Ok (value * units_get unit)%Z
      end
  end.

(** ** Report *)

(** A naive [datetime] is a count of microseconds on the proleptic
    Gregorian time line, a [timedelta] a difference of two. *)
Abbreviation datetime := Z (only parsing).

Definition timedelta_days (days : Z) : Z := (days * 86400 * 1000000)%Z.

(** [categories.get(c, 0)] on a dict kept in insertion order. *)
Fixpoint dict_get (c : str) (d : list (str * Z)) : Z :=
  match d with
  | [] => 0%Z
  | (k, v) :: d' => if str_eqb k c then v else dict_get c d'
  end.

(** [categories[c] = v]: an existing key keeps its place, a new one goes
    last. *)
Fixpoint dict_set (c : str) (v : Z) (d : list (str * Z)) : list (str * Z) :=
  match d with
  | [] => [(c, v)]
  | (k, w) :: d' => if str_eqb k c then (k, v) :: d' else (k, w) :: dict_set c v d'
  end.

Record tally := mkTally {
  n_completed : Z;
  n_remaining : Z;
  categories : list (str * Z)
}.

(** One iteration of the loop of [report], after [task_date] is known. *)
Definition count_task (start_date task_date : datetime) (t : Task) (a : tally) : tally :=
  if (start_date <=? task_date)%Z then
    {| n_completed := if completed t then (n_completed a + 1)%Z else n_completed a;
       n_remaining := if completed t then n_remaining a else (n_remaining a + 1)%Z;
       categories := dict_set (category t) (dict_get (category t) (categories a) + 1)%Z
                       (categories a) |}
  else a.

Section Report.
(** [datetime.strptime(s, "%Y-%m-%d %H:%M")], [None] when it raises
    ValueError, and the reading of [datetime.now()]. *)
Variable strptime : str -> option datetime.
Variable now : datetime.

Fixpoint report_loop (start_date : datetime) (ts : list Task) (a : tally) : res tally :=
  match ts with
  | [] => Ok a
  | t :: ts' =>
      match strptime (created_at t) with
      | None => Raise (TimeDataMismatch (created_at t))
      | Some task_date => report_loop start_date ts' (count_task start_date task_date t a)
      end
  end.

Definition start_of (period : str) : option datetime :=
  if str_eqb period (lit "week") then Some (now - timedelta_days 7)%Z
  else if str_eqb period (lit "day") then Some (now - timedelta_days 1)%Z
  else None.

Definition report_lines (period : str) (a : tally) : list event :=
  [Print (MsgReportHeader period);
   Print (MsgReportCompleted (n_completed a));
   Print (MsgReportRemaining (n_remaining a));
   Print MsgByCategory]
  ++ map (fun kv => Print (MsgCategoryLine (fst kv) (snd kv))) (categories a).

(** [report] *)
Definition report (period : str) (q : QuickDo) : res unit * list event :=
  match start_of period with
  | None => (Ok tt, [Print MsgUnsupportedPeriod])
  | Some start_date =>
      match report_loop start_date (tasks q) (mkTally 0 0 []) with
      | Raise e => (Raise e, [])
      | Ok a => (Ok tt, report_lines period a)
      end
  end.
End Report.

(** ** [datetime.strptime] on ASCII text

    The library function for the one format the program uses,
    "%Y-%m-%d %H:%M", whose pattern is
    [(\d\d\d\d)-(1[0-2]|0[1-9]|[1-9])-(3[01]|[12]\d|0[1-9]|[1-9]| [1-9])\s+(2[0-3]|[0-1]\d|\d):([0-5]\d|\d)]
    followed by the check that no text remains and by the calendar checks
    of the [datetime] constructor. *)

Definition scanner := str -> option (Z * str).

Definition one_digit (ok : Z -> bool) : scanner := fun s =>
  match s with
  | a :: rest =>
      match digit_value a with
      | Some x => if ok x then Some (x, rest) else None
      | None => None
      end
  | [] => None
  end.

Definition two_digits (ok : Z -> Z -> bool) : scanner := fun s =>
  match s with
  | a :: b :: rest =>
      match digit_value a, digit_value b with
      | Some x, Some y => if ok x y then Some (10 * x + y, rest)%Z else None
      | _, _ => None
      end
  | _ => None
  end.

Definition alt (p q : scanner) : scanner := fun s =>
  match p s with
  | Some r => Some r
  | None => q s
  end.

Definition expect (c : char) (s : str) : option str :=
  match s with
  | a :: rest => if a =? c then Some rest else None
  | [] => None
  end.

Definition field_Y : scanner := fun s =>
  match two_digits (fun _ _ => true) s with
  | Some (hi, s1) =>
      match two_digits (fun _ _ => true) s1 with
      | Some (lo, s2) => Some (100 * hi + lo, s2)%Z
      | None => None
      end
  | None => None
  end.

Definition field_m : scanner :=
  alt (two_digits (fun x y => ((x =? 1) && (y <=? 2) || (x =? 0) && (1 <=? y))%Z))
      (one_digit (fun x => (1 <=? x)%Z)).

Definition field_d : scanner :=
  alt (two_digits (fun x y =>
         ((x =? 3) && (y <=? 1) || (x =? 1) || (x =? 2) || (x =? 0) && (1 <=? y))%Z))
   (alt (one_digit (fun x => (1 <=? x)%Z))
        (fun s => match expect 32 s with
                  | Some s' => one_digit (fun x => (1 <=? x)%Z) s'
                  | None => None
                  end)).

Definition field_H : scanner :=
  alt (two_digits (fun x y => ((x =? 2) && (y <=? 3) || (x <=? 1))%Z))
      (one_digit (fun _ => true)).

Definition field_M : scanner :=
  alt (two_digits (fun x _ => (x <=? 5)%Z)) (one_digit (fun _ => true)).

(** [\s+] *)
Definition spaces1 (s : str) : option str :=
  match s with
  | c :: s' => if is_space c then Some (lstrip s') else None
  | [] => None
  end.

Definition is_leap (y : Z) : bool :=
  ((y mod 4 =? 0) && (negb (y mod 100 =? 0) || (y mod 400 =? 0)))%Z.

Definition days_in_month (y m : Z) : Z :=
  (if m =? 2 then (if is_leap y then 29 else 28)
   else if (m =? 4) || (m =? 6) || (m =? 9) || (m =? 11) then 30 else 31)%Z.

Definition days_before_year (y : Z) : Z :=
  (let y1 := y - 1 in y1 * 365 + y1 / 4 - y1 / 100 + y1 / 400)%Z.

Fixpoint days_before_month (y : Z) (m : nat) : Z :=
  match m with
  | O => 0%Z
  | S m' =>
      match m' with
      | O => 0%Z
      | S _ => (days_before_month y m' + days_in_month y (Z.of_nat m'))%Z
      end
  end.

(** [datetime(y, m, d, H, M)] *)
Definition make_datetime (y m d H M : Z) : option datetime :=
  if ((1 <=? y) && (y <=? 9999) && (1 <=? m) && (m <=? 12)
      && (1 <=? d) && (d <=? days_in_month y m)
      && (0 <=? H) && (H <=? 23) && (0 <=? M) && (M <=? 59))%Z
  then Some ((((days_before_year y + days_before_month y (Z.to_nat m) + d) * 24 + H)
               * 60 + M) * 60 * 1000000)%Z
  else None.

Definition strptime_ascii (s : str) : option datetime :=
  '(y, s) ← field_Y s;
  s ← expect 45 s;
  '(m, s) ← field_m s;
  s ← expect 45 s;
  '(d, s) ← field_d s;
  s ← spaces1 s;
  '(H, s) ← field_H s;
  s ← expect 58 s;
  '(M, s) ← field_M s;
  match s with
  | [] => make_datetime y m d H M
  | _ :: _ => None
  end.

(** ** Vocabulary of the statements *)

(** [p in s] *)
Fixpoint contains (p s : str) : bool :=
  match strip_prefix p s with
  | Some _ => true
  | None =>
      match s with
      | [] => false
      | _ :: s' => contains p s'
      end
  end.

(** What [to_string] writes before the title. *)
Definition header (t : Task) : str :=
  completed_mark t ++ [bar] ++ created_at t ++ [bar] ++ priority t ++ [bar]
    ++ category t ++ [bar].

(** The three fields written before the title hold no delimiter. *)
Definition header_safe (t : Task) : Prop :=
  (bar ∉ created_at t) /\ (bar ∉ priority t) /\ (bar ∉ category t).

(** A title that decoding leaves alone: no white space at either end and no
    match of the due pattern inside. *)
Definition plain_title (s : str) : Prop :=
  strip s = s /\ re_search_due s = None.

(** A due date the encoder writes and the decoder reads back whole. *)
Definition plain_due (d : option str) : Prop :=
  match d with
  | None => True
  | Some d => d <> [] /\ Forall (fun c => is_space c = false) d
  end.

(** A due date that does not disturb the title: unset, empty, or starting
    with a character other than white space. *)
Definition due_keeps_title (d : option str) : Prop :=
  match d with
  | Some (c :: _) => is_space c = false
  | _ => True
  end.

Definition roundtrip_safe (t : Task) : Prop :=
  header_safe t /\ plain_title (title t) /\ plain_due (due_date t).

Definition with_due (d : option str) (t : Task) : Task :=
  {| title := title t; due_date := d; priority := priority t;
     category := category t; completed := completed t;
     created_at := created_at t |}.

(** The due date as the decoder sees it in an encoded line. *)
Definition due_read_back (d : option str) : option str :=
  match d with
  | Some (c :: d') => Some (nonspace_run (c :: d'))
  | _ => None
  end.

(** No field other than the due date holds the text "due:". *)
Definition no_due_text (t : Task) : Prop :=
  contains (lit "due:") (created_at t) = false
  /\ contains (lit "due:") (priority t) = false
  /\ contains (lit "due:") (category t) = false
  /\ contains (lit "due:") (title t) = false.

(** The pairs [enumerate(ts, 1)] yields: positions count from 1 over the
    whole sequence. *)
Definition positions (ts : list Task) : list (Z * Task) :=
  imap (fun k t => ((Z.of_nat k + 1)%Z, t)) ts.

Definition row (it : Z * Task) : event := Print (task_line (fst it) (snd it)).

(** The number of fields a stored line splits into. *)
Definition n_fields (line : str) : nat := length (split bar (strip line)).

(** The two lines printed for a line that cannot be decoded. *)
Definition diagnostic (line : str) : list event :=
  [Print (MsgReadError line); Print (MsgCause (NotEnoughValues 4 (n_fields line)))].

(** How many records of [ts] satisfy [P]. *)
Fixpoint count (P : Task -> bool) (ts : list Task) : Z :=
  match ts with
  | [] => 0%Z
  | t :: ts' => ((if P t then 1 else 0) + count P ts')%Z
  end.

(** The record's time stamp parses. *)
Definition parses (strptime : str -> option datetime) (t : Task) : Prop :=
  is_Some (strptime (created_at t)).

(** The record's time stamp parses and is not before [start_date]. *)
Definition in_window (strptime : str -> option datetime) (start_date : datetime)
    (t : Task) : bool :=
  match strptime (created_at t) with
  | Some task_date => (start_date <=? task_date)%Z
  | None => false
  end.

Definition window_days (period : str) : Z :=
  if str_eqb period (lit "day") then 1%Z else 7%Z.

(** [now - timedelta(days=...)] for the period of a report. *)
Definition window_start (now : datetime) (period : str) : datetime :=
  (now - timedelta_days (window_days period))%Z.

Definition timedelta_hours (hours : Z) : Z := (hours * 3600 * 1000000)%Z.
Definition timedelta_minutes (minutes : Z) : Z := (minutes * 60 * 1000000)%Z.

Definition is_digit (c : char) : Prop := 48 <= c <= 57.

(** The number a text of ASCII digits denotes. *)
Definition numeral_value (s : str) : Z :=
  fold_left (fun acc c => (10 * acc + (Z.of_N c - 48))%Z) s 0%Z.

(** ** Sample records and stores *)

Definition stamp : str := lit "2025-01-09 08:30".

Definition buy_milk : Task :=
  mkTask (lit "Buy milk") (Some (lit "2025-01-10")) (lit "high") (lit "errand")
    false stamp.

Definition paint : Task :=
  mkTask (lit "red|blue paint") (Some (lit "2025-01-10")) (lit "medium")
    (lit "home") true stamp.

Definition padded : Task :=
  mkTask (lit " milk") None (lit "medium") (lit "personal") false stamp.

Definition pay_friday : Task :=
  mkTask (lit "pay due:friday") None (lit "medium") (lit "personal") false stamp.

Definition overdue : Task :=
  mkTask (lit "milk") None (lit "medium") (lit "overdue:") false stamp.

Definition two_categories : Task :=
  mkTask (lit "milk") None (lit "medium") (lit "home|work") false stamp.

Definition empty_due : Task :=
  mkTask (lit "milk") (Some []) (lit "medium") (lit "personal") false stamp.

Definition next_week : Task :=
  mkTask (lit "milk") (Some (lit "next week")) (lit "medium") (lit "personal")
    false stamp.

Definition bar_padded : Task :=
  mkTask (lit "a|b ") None (lit "medium") (lit "personal") false stamp.

Definition bar_pay_friday : Task :=
  mkTask (lit "rent|pay due:friday") None (lit "medium") (lit "personal") false stamp.

Definition bar_two_categories : Task :=
  mkTask (lit "a|b") None (lit "medium") (lit "home|work") false stamp.

Definition bar_late_due : Task :=
  mkTask (lit "a|b") (Some (lit " friday")) (lit "medium") (lit "personal")
    false stamp.

Definition sample_store : QuickDo :=
  mkQuickDo [paint; buy_milk] (serialize [paint; buy_milk]).

(** 2025-01-10 12:00:30.5 *)
Definition sample_now : datetime := 63872193630500000%Z.

Definition two_days_ago : Task :=
  mkTask (lit "old") None (lit "low") (lit "home") true (lit "2025-01-08 12:00").

Definition five_days_ago : Task :=
  mkTask (lit "older") None (lit "low") (lit "work") false (lit "2025-01-05 09:00").

Definition one_hour_ago : Task :=
  mkTask (lit "fresh") None (lit "high") (lit "home") false (lit "2025-01-10 11:00").

Definition no_stamp : Task :=
  mkTask (lit "edited by hand") None (lit "low") (lit "home") false (lit "yesterday").

Definition dated_store : QuickDo :=
  mkQuickDo [two_days_ago; five_days_ago; one_hour_ago] [].

Definition undated_store : QuickDo :=
  mkQuickDo [two_days_ago; no_stamp; one_hour_ago] [].

(** ** The rest of the program: adding, reminders and the command line *)

(** [Task.__init__]; [now_str] is [datetime.now().strftime("%Y-%m-%d %H:%M")]. *)
Definition Task_init (now_str title : str) (due_date : option str)
    (priority category : str) : Task :=
  {| title := title; due_date := due_date; priority := priority;
     category := category; completed := false; created_at := now_str |}.

(** What these functions do beyond the events above. *)
Inductive effect :=
| Ev (e : event)
| PrintAdded (ttl due prio : str)
    (* task added: "{title}" [due: {due_date or 'not set'}, priority: {priority}] *)
| StartThread (seconds : Z) (message : str)
    (* threading.Thread(target=reminder_task, daemon=True).start(), where
       reminder_task sleeps for [seconds] and then notifies [message] *)
| AppendRemindersFile (data : str)     (* open(reminders_file, 'a') and the write *)
| PrintReminderSet (message delay : str)
    (* reminder set: "{message}" (in {delay}) *)
| PrintHelp.                           (* parser.print_help() *)

(** The words printed for a missing due date, 'не указан'. *)
Definition not_set : str := [1085; 1077; 32; 1091; 1082; 1072; 1079; 1072; 1085].

(** [due_date or 'не указан'] *)
Definition due_or_not_set (due_date : option str) : str :=
  match due_date with
  | Some d => if truthy (Some d) then d else not_set
  | None => not_set
  end.

(** Exceptions of the rest of the program. *)
Inductive failure :=
| Raised (e : exn)
| TypeError            (* subscripting None *)
| OverflowError        (* timedelta or datetime out of range *)
| UnicodeEncodeError.  (* a lone surrogate in a text to encode *)

(** The texts given on the command line need not be encodable: a byte of
    an argument that is not valid UTF-8 becomes a lone surrogate, a code
    point in U+D800..U+DFFF, and the UTF-8 encoder of a file opened with
    encoding='utf-8' raises on it. *)
Definition is_surrogate (c : char) : bool := (55296 <=? c) && (c <=? 57343).

Definition encodable (s : str) : bool :=
  forallb (fun c => negb (is_surrogate c)) s.

(** The loop of [save_tasks] with the encoding of what it writes: each
    [f.write] encodes its line before anything of it is buffered, so the
    first line that cannot be encoded raises, and leaving the [with] block
    closes the file with the lines written before it.  The result tells
    whether the loop came to its end, and gives the text written. *)
Fixpoint write_lines (ts : list Task) : bool * str :=
  match ts with
  | [] => (true, [])
  | t :: ts' =>
      let line := to_string t ++ [newline] in
      if encodable line
      then let '(finished, data) := write_lines ts' in (finished, line ++ data)
      else (false, [])
  end.

(** [save_tasks] where the records may hold text from the command line:
    the file is opened with 'w', which empties it, and holds afterwards the
    lines that were written. *)
Definition save_tasks_utf8 (q : QuickDo) : option failure * QuickDo * list event :=
  let '(finished, data) := write_lines (tasks q) in
  (if finished then None else Some UnicodeEncodeError,
   {| tasks := tasks q; tasks_file := data |}, [WriteTasksFile data]).

(** [add_task]: the exception, if any, the store as the call leaves it and
    what it did.  The record is appended before the file is written, and
    the confirmation is printed after; its texts are in the line just
    written, so printing them is taken to succeed as everywhere else. *)
Definition add_task (now_str title : str) (due_date : option str)
    (priority category : str) (q : QuickDo)
    : option failure * QuickDo * list effect :=
  let task := Task_init now_str title due_date priority category in
  let q1 := {| tasks := tasks q ++ [task]; tasks_file := tasks_file q |} in
  match save_tasks_utf8 q1 with
  | (None, q2, out) =>
      (None, q2, (Ev <$> out) ++ [PrintAdded title (due_or_not_set due_date) priority])
  | (Some f, q2, out) => (Some f, q2, Ev <$> out)
  end.

(** [format_reminder] *)
Definition format_reminder (message time_str : str) : str :=
  time_str ++ [bar] ++ message.

(** [save_reminder]: the exception, if any, and the new text of the
    reminders file.  The file is opened with 'a'; a line that cannot be
    encoded raises in [f.write] and nothing is appended. *)
Definition save_reminder (message time_str reminders : str)
    : option failure * str * list effect :=
  let data := format_reminder message time_str ++ [newline] in
  if encodable data
  then (None, reminders ++ data, [AppendRemindersFile data])
  else (Some UnicodeEncodeError, reminders, []).

(** [timedelta(seconds=s)] in microseconds: the days of the normalised
    value must not exceed 999999999 in magnitude. *)
Definition timedelta_seconds (s : Z) : option Z :=
  if ((-999999999 <=? s / 86400) && (s / 86400 <=? 999999999))%Z
  then Some (s * 1000000)%Z else None.

(** [datetime.min] and [datetime.max] *)
Definition datetime_min : datetime := 86400000000%Z.
Definition datetime_max : datetime := (3652060 * 86400000000 - 1)%Z.

(** [d + delta] on a [datetime] *)
Definition datetime_add (d : datetime) (delta : Z) : option datetime :=
  if ((datetime_min <=? d + delta) && (d + delta <=? datetime_max))%Z
  then Some (d + delta)%Z else None.

Section Main.
(** [datetime.strptime(s, "%Y-%m-%d %H:%M")], [d.strftime("%Y-%m-%d %H:%M")]
    and the reading of [datetime.now()]. *)
Variable strptime : str -> option datetime.
Variable strftime : datetime -> str.
Variable now : datetime.
(** Whether standard output can encode the lone surrogate: it cannot with
    the error handler 'strict' of a terminal in a UTF-8 locale, it can for
    U+DC80..U+DCFF with 'surrogateescape', which Python sets in the C
    locale, and a stream that does not encode takes every code point. *)
Variable stdout_accepts : char -> bool.

Definition printable (s : str) : bool :=
  forallb (fun c => negb (is_surrogate c) || stdout_accepts c) s.

(** [remind]: the exception, if any, the text of the reminders file as the
    call leaves it and what it did; [delay] is [None] when the option --in
    was not given.  The thread is started before the line is written, and
    the line is written before the confirmation, which prints [message]
    and [delay], is encoded for standard output. *)
Definition remind (message : str) (delay : option str) (reminders : str)
    : option failure * str * list effect :=
  match delay with
  | None => (Some TypeError, reminders, [])
  | Some delay_str =>
      match parse_delay delay_str with
      | Raise e => (Some (Raised e), reminders, [])
      | Ok seconds =>
          match timedelta_seconds seconds with
          | None => (Some OverflowError, reminders, [])
          | Some delta =>
              match datetime_add now delta with
              | None => (Some OverflowError, reminders, [])
              | Some reminder_time =>
                  let time_str := strftime reminder_time in
                  match save_reminder message time_str reminders with
                  | (Some f, reminders', out) =>
                      (Some f, reminders', [StartThread seconds message] ++ out)
                  | (None, reminders', out) =>
                      if printable (message ++ delay_str)
                      then (None, reminders',
                            [StartThread seconds message] ++ out
                            ++ [PrintReminderSet message delay_str])
                      else (Some UnicodeEncodeError, reminders',
                            [StartThread seconds message] ++ out)
                  end
              end
          end
      end
  end.

(** The two files under ~/.quickdo, as the text they hold, which is what
    decoding them as UTF-8 gave; [None] is a file that does not exist. *)
Record files := mkFiles {
  tasks_txt : option str;
  reminders_txt : option str
}.

(** [setup_files]: both files are created empty when missing. *)
Definition setup_files (fs : files) : files :=
  {| tasks_txt := Some (default [] (tasks_txt fs));
     reminders_txt := Some (default [] (reminders_txt fs)) |}.

(** [QuickDo.__init__] *)
Definition QuickDo_init (fs : files) : QuickDo * list event :=
  let text := default [] (tasks_txt (setup_files fs)) in
  let '(ts, out) := load_tasks text in
  ({| tasks := ts; tasks_file := text |}, out).

(** The parsed command line, [args]. *)
Inductive args :=
| CmdAdd (ttl : str) (due : option str) (prio cat : str)
| CmdList (all : bool)
| CmdComplete (task_id : Z)
| CmdRemind (message : str) (delay : option str)
| CmdReport (period : str)
| CmdNone.

(** [main] after [parse_args]: the exception that ends the run, if any,
    the files as the run leaves them and what it did. *)
Definition main (a : args) (fs : files) : option failure * files * list effect :=
  let '(quickdo, out0) := QuickDo_init fs in
  let reminders := default [] (reminders_txt (setup_files fs)) in
  let keep (q : QuickDo) : files :=
    {| tasks_txt := Some (tasks_file q); reminders_txt := Some reminders |} in
  match a with
  | CmdAdd ttl due prio cat =>
      let '(f, q, out) := add_task (strftime now) ttl due prio cat quickdo in
      (f, keep q, (Ev <$> out0) ++ out)
  | CmdList all =>
      (None, keep quickdo, Ev <$> (out0 ++ list_tasks all quickdo))
  | CmdComplete task_id =>
      match complete_task task_id quickdo with
      | (Ok q, out) => (None, keep q, Ev <$> (out0 ++ out))
      | (Raise e, out) => (Some (Raised e), keep quickdo, Ev <$> (out0 ++ out))
      end
  | CmdRemind message delay =>
      let '(f, reminders', out) := remind message delay reminders in
      (f, {| tasks_txt := Some (tasks_file quickdo); reminders_txt := Some reminders' |},
       (Ev <$> out0) ++ out)
  | CmdReport period =>
      match report strptime now period quickdo with
      | (Ok _, out) => (None, keep quickdo, Ev <$> (out0 ++ out))
      | (Raise e, out) => (Some (Raised e), keep quickdo, Ev <$> (out0 ++ out))
      end
  | CmdNone => (None, keep quickdo, (Ev <$> out0) ++ [PrintHelp])
  end.
End Main.

(** ** Vocabulary of the further statements *)

(** The encoding of the record holds no line break. *)
Definition single_line (t : Task) : Prop :=
  (newline ∉ to_string t) /\ (13 ∉ to_string t).

(** A record that comes back from a saved file as it went in. *)
Definition storable (t : Task) : Prop := roundtrip_safe t /\ single_line t.

(** The line of the record can be written to the file. *)
Definition encodable_task (t : Task) : Prop := encodable (to_string t) = true.

(** The elements of a list in the order in which they first occur. *)
Definition first_seen (l : list str) : list str :=
  fold_left (fun acc c => if bool_decide (c ∈ acc) then acc else acc ++ [c]) l [].

(** The sum of the counts of a dict. *)
Definition dict_total (d : list (str * Z)) : Z :=
  fold_right (fun kv acc => (snd kv + acc)%Z) 0%Z d.


(** ** Sample files *)

Definition sample_text : str :=
  lit "+|2025-01-09 08:30|low|home|sweep" ++ [newline]
  ++ lit "broken|line" ++ [newline]
  ++ lit "-|2025-01-09 08:31|high|work|ship it due:friday" ++ [newline].

Definition sample_files : files := mkFiles (Some sample_text) None.

(** A clock stopped at 2025-01-10 12:00, as [strftime] would print it. *)
Definition stopped_clock (d : datetime) : str := lit "2025-01-10 12:00".


(** ** Histories of a store *)

(** A call of one of the two methods that change a store. *)
Inductive call :=
| CallAdd (now_str ttl : str) (due : option str) (prio cat : str)
| CallComplete (task_id : Z).

(** The record that the call adds can be written to the file. *)
Definition call_encodable (c : call) : Prop :=
  match c with
  | CallAdd now_str ttl due prio cat =>
      encodable_task (Task_init now_str ttl due prio cat)
  | CallComplete _ => True
  end.

(** The store after the call, whether the call returned or raised; the
    records of such a store may hold text from the command line, so the
    write of [complete_task] is the one of [save_tasks_utf8]. *)
Definition do_call (q : QuickDo) (c : call) : QuickDo :=
  match c with
  | CallAdd now_str ttl due prio cat =>
      snd (fst (add_task now_str ttl due prio cat q))
  | CallComplete task_id =>
      if ((1 <=? task_id) && (task_id <=? Z.of_nat (length (tasks q))))%Z
      then snd (fst (save_tasks_utf8
                       {| tasks := alter set_completed (Z.to_nat (task_id - 1)) (tasks q);
                          tasks_file := tasks_file q |}))
      else q
  end.

(** The record [t'] is the record [t], possibly completed since. *)
Definition same_task_later (t t' : Task) : Prop :=
  title t' = title t /\ due_date t' = due_date t /\ priority t' = priority t
  /\ category t' = category t /\ created_at t' = created_at t
  /\ (completed t = true -> completed t' = true).


(** * Properties *)

(** ** Concrete runs of the codec *)

Example to_string_buy_milk :
  to_string (mkTask (lit "Buy milk") (Some (lit "2025-01-10")) (lit "high")
               (lit "errand") false (lit "2025-01-09 08:30"))
  = lit "-|2025-01-09 08:30|high|errand|Buy milk due:2025-01-10".
Proof. reflexivity. Qed.

Example from_string_buy_milk :
  from_string_body (lit "-|2025-01-09 08:30|high|errand|Buy milk due:2025-01-10")
  = Ok (mkTask (lit "Buy milk") (Some (lit "2025-01-10")) (lit "high")
          (lit "errand") false (lit "2025-01-09 08:30")).
Proof. vm_compute. reflexivity. Qed.

(** ** strip *)

Lemma lstrip_length s : (length (lstrip s) <= length s)%nat.
Proof. induction s as [|c s IH]; simpl; [lia|]. destruct (is_space c); simpl; lia. Qed.

Lemma rstrip_length s : (length (rstrip s) <= length s)%nat.
Proof.
  induction s as [|c s IH]; simpl; [lia|].
  destruct (rstrip s); [destruct (is_space c)|]; simpl in *; lia.
Qed.

Lemma strip_fixed s : strip s = s -> lstrip s = s /\ rstrip s = s.
Proof.
  unfold strip. intros H.
  assert (lstrip s = s) as Hl.
  { destruct s as [|c s]; [done|]. simpl in *.
    destruct (is_space c); [|done].
    pose proof (rstrip_length (lstrip s)). pose proof (lstrip_length s).
    apply (f_equal length) in H. simpl in H. lia. }
  rewrite Hl in H. done.
Qed.

Lemma rstrip_app_space s c : is_space c = true -> rstrip (s ++ [c]) = rstrip s.
Proof.
  intros Hc. induction s as [|a s IH]; simpl; [by rewrite Hc|]. by rewrite IH.
Qed.

Lemma nonspace_run_nonspace s :
  Forall (fun c => is_space c = false) s -> nonspace_run s = s.
Proof. induction 1 as [|c s Hc _ IH]; simpl; [done|]. by rewrite Hc, IH. Qed.

(** Appending one blank to a stripped text and stripping gives it back. *)
Lemma strip_app_space s : strip s = s -> strip (s ++ [32]) = s.
Proof.
  intros [Hl Hr]%strip_fixed. unfold strip.
  destruct s as [|c s]; [done|].
  simpl in Hl. simpl. destruct (is_space c) eqn:Hc.
  - pose proof (lstrip_length s). apply (f_equal length) in Hl. simpl in Hl. lia.
  - change (c :: s ++ [32]) with ((c :: s) ++ [32]).
    by rewrite rstrip_app_space.
Qed.

(** ** split and join *)

Lemma split_nonempty sep s : split sep s <> [].
Proof.
  destruct s as [|c s]; simpl; [done|].
  destruct (c =? sep); [done|]. by destruct (split sep s).
Qed.

Lemma split_app_sep sep a s :
  sep ∉ a -> split sep (a ++ sep :: s) = a :: split sep s.
Proof.
  induction a as [|c a IH]; intros Hn; simpl.
  - by rewrite N.eqb_refl.
  - apply not_elem_of_cons in Hn as [Hc Ha].
    destruct (N.eqb_spec c sep) as [->|_]; [done|]. by rewrite IH.
Qed.

Lemma join_cons_char sep c f fs :
  join sep ((c :: f) :: fs) = c :: join sep (f :: fs).
Proof. by destruct fs. Qed.

(** Rejoining the pieces of a split gives the text back. *)
Lemma join_split sep s : join [sep] (split sep s) = s.
Proof.
  induction s as [|c s IH]; simpl; [done|].
  pose proof (split_nonempty sep s) as Hne. revert IH Hne.
  destruct (split sep s) as [|f fs]; intros IH Hne; [done|].
  destruct (N.eqb_spec c sep) as [->|_].
  - change (join [sep] ([] :: f :: fs)) with (sep :: join [sep] (f :: fs)).
    by rewrite IH.
  - by rewrite join_cons_char, IH.
Qed.

(** ** The due pattern *)

Lemma nonspace_run_app_space s rest :
  nonspace_run s = [] -> nonspace_run (s ++ 32 :: rest) = [].
Proof. destruct s as [|c s]; simpl; [done|]. by destruct (is_space c). Qed.

Lemma strip_prefix_app_sep p x c y :
  c ∉ p -> strip_prefix p x = None -> strip_prefix p (x ++ c :: y) = None.
Proof.
  revert x. induction p as [|a p IH]; intros x Hc Hx; simpl in *; [done|].
  apply not_elem_of_cons in Hc as [Hca Hcp].
  destruct x as [|b x]; simpl.
  - destruct (N.eqb_spec a c) as [->|_]; done.
  - destruct (a =? b); [by apply IH|done].
Qed.

Lemma strip_prefix_app_Some p x r y :
  strip_prefix p x = Some r -> strip_prefix p (x ++ y) = Some (r ++ y).
Proof.
  revert x. induction p as [|a p IH]; intros x Hx; simpl in *.
  - by simplify_eq.
  - destruct x as [|b x]; [done|]. simpl. destruct (a =? b); [by apply IH|done].
Qed.

Lemma strip_prefix_self p y : strip_prefix p (p ++ y) = Some y.
Proof. induction p as [|a p IH]; simpl; [done|]. by rewrite N.eqb_refl. Qed.

Lemma space_not_in_due : 32 ∉ lit "due:".
Proof. compute_done. Qed.

Lemma bar_not_in_due : bar ∉ lit "due:".
Proof. compute_done. Qed.

Lemma match_due_here_app_space s rest :
  match_due_here s = None -> match_due_here (s ++ 32 :: rest) = None.
Proof.
  unfold match_due_here.
  destruct (strip_prefix (lit "due:") s) as [r|] eqn:E.
  - rewrite (strip_prefix_app_Some _ _ _ _ E).
    destruct (nonspace_run r) eqn:Er; [|done]. intros _.
    by rewrite nonspace_run_app_space.
  - intros _. by rewrite (strip_prefix_app_sep _ _ _ _ space_not_in_due E).
Qed.

Lemma search_due_from_None i j s :
  search_due_from i s = None -> search_due_from j s = None.
Proof.
  revert i j. induction s as [|c s IH]; intros i j; simpl.
  - by destruct (match_due_here []).
  - destruct (match_due_here (c :: s)); [done|]. apply IH.
Qed.

Lemma search_due_from_skip i a s :
  match_due_here (a :: s) = None ->
  search_due_from i (a :: s) = search_due_from (S i) s.
Proof. cbn [search_due_from]. by intros ->. Qed.

Lemma search_due_from_here i s g :
  match_due_here s = Some g -> search_due_from i s = Some (i, g).
Proof. destruct s; cbn [search_due_from]; by intros ->. Qed.

Lemma match_due_here_token c d :
  is_space c = false ->
  match_due_here (lit "due:" ++ c :: d) = Some (nonspace_run (c :: d)).
Proof.
  intros Hc. unfold match_due_here. rewrite strip_prefix_self.
  simpl. by rewrite Hc.
Qed.

(** In a title without a match, followed by the token the encoder appends,
    the leftmost match is the appended token. *)
Lemma search_due_appended i ttl c d :
  re_search_due ttl = None -> is_space c = false ->
  search_due_from i (ttl ++ lit " due:" ++ c :: d)
  = Some ((i + length ttl + 1)%nat, nonspace_run (c :: d)).
Proof.
  unfold re_search_due. intros Hnone Hc. revert i Hnone.
  induction ttl as [|a ttl IH]; intros i Hnone.
  - change ([] ++ lit " due:" ++ c :: d) with (32 :: (lit "due:" ++ c :: d)).
    rewrite search_due_from_skip
      by (apply (match_due_here_app_space []); reflexivity).
    rewrite (search_due_from_here _ _ _ (match_due_here_token c d Hc)).
    do 2 f_equal. simpl. lia.
  - simpl in Hnone.
    destruct (match_due_here (a :: ttl)) eqn:E; [done|].
    change ((a :: ttl) ++ lit " due:" ++ c :: d)
      with (a :: (ttl ++ lit " due:" ++ c :: d)).
    rewrite search_due_from_skip.
    + rewrite IH by (eapply search_due_from_None, Hnone).
      do 2 f_equal. simpl. lia.
    + apply (match_due_here_app_space (a :: ttl)), E.
Qed.

(** ** Encoding followed by decoding *)

Lemma rstrip_cons_nonspace c s :
  is_space c = false -> rstrip (c :: s) = c :: rstrip s.
Proof. intros Hc. simpl. rewrite Hc. by destruct (rstrip s). Qed.

Lemma rstrip_app_keep s1 s2 :
  rstrip s2 <> [] -> rstrip (s1 ++ s2) = s1 ++ rstrip s2.
Proof.
  intros Hne. induction s1 as [|a s1 IH]; simpl; [done|].
  rewrite IH. destruct (s1 ++ rstrip s2) eqn:E; [|done].
  apply app_eq_nil in E as [_ ?]. done.
Qed.

Lemma nonspace_run_rstrip s : nonspace_run (rstrip s) = nonspace_run s.
Proof.
  induction s as [|c s IH]; [done|].
  destruct (is_space c) eqn:Hc.
  - simpl. rewrite Hc. destruct (rstrip s); simpl; by rewrite ?Hc.
  - rewrite rstrip_cons_nonspace by done. simpl. by rewrite Hc, IH.
Qed.

Lemma to_string_shape t :
  to_string t
  = (completed_mark t ++ [bar] ++ created_at t ++ [bar] ++ priority t ++ [bar]
       ++ category t) ++ bar :: (title t ++ due_str t).
Proof. unfold to_string. by rewrite <- !app_assoc. Qed.

Lemma bar_not_in_mark t : bar ∉ completed_mark t.
Proof. unfold completed_mark. destruct (completed t); compute_done. Qed.

Lemma split_to_string t :
  header_safe t ->
  split bar (to_string t)
  = completed_mark t :: created_at t :: priority t :: category t
      :: split bar (title t ++ due_str t).
Proof.
  intros (Hc & Hp & Hk). unfold to_string. cbn [app].
  rewrite (split_app_sep _ _ _ (bar_not_in_mark t)), (split_app_sep _ _ _ Hc).
  by rewrite (split_app_sep _ _ _ Hp), (split_app_sep _ _ _ Hk).
Qed.

Lemma mark_is_plus t : str_eqb (completed_mark t) (lit "+") = completed t.
Proof. unfold completed_mark. by destruct (completed t). Qed.

(** Stripping an encoded line can only shorten the due date at its end. *)
Lemma strip_to_string t :
  strip (title t) = title t -> due_keeps_title (due_date t) ->
  strip (to_string t) = to_string (with_due (rstrip <$> due_date t) t).
Proof.
  intros [_ Hr]%strip_fixed Hdue. unfold strip.
  assert (lstrip (to_string t) = to_string t) as ->.
  { unfold to_string, completed_mark. by destruct (completed t). }
  rewrite !to_string_shape. cbn [title priority category created_at with_due].
  change (completed_mark (with_due ?d t)) with (completed_mark t).
  assert (is_space bar = false) as Hbar by done.
  rewrite rstrip_app_keep by (by rewrite rstrip_cons_nonspace).
  rewrite rstrip_cons_nonspace by done. do 2 f_equal.
  unfold due_str. cbn [due_date with_due].
  destruct (due_date t) as [[|c d]|].
  - by rewrite !app_nil_r.
  - simpl in Hdue.
    change (rstrip <$> Some (c :: d)) with (Some (rstrip (c :: d))).
    rewrite (rstrip_cons_nonspace c d Hdue). cbn [truthy].
    rewrite app_assoc, rstrip_app_keep by (by rewrite rstrip_cons_nonspace).
    by rewrite rstrip_cons_nonspace, <- app_assoc.
  - by rewrite !app_nil_r.
Qed.

(** Decoding a line whose stripped text is the encoding of [t]. *)
Lemma from_string_body_of t line :
  header_safe t -> plain_title (title t) -> due_keeps_title (due_date t) ->
  strip line = to_string t ->
  from_string_body line
  = Ok {| title := title t; due_date := due_read_back (due_date t);
          priority := priority t; category := category t;
          completed := completed t; created_at := created_at t |}.
Proof.
  intros Hh [Hs Hn] Hdue Hline. unfold from_string_body.
  rewrite Hline, (split_to_string t Hh), join_split, mark_is_plus.
  unfold due_str, due_read_back.
  destruct (due_date t) as [[|c d]|]; cbn [truthy].
  - by rewrite app_nil_r, Hn, Hs.
  - simpl in Hdue. unfold re_search_due.
    rewrite (search_due_appended 0 (title t) c d Hn Hdue).
    change (title t ++ lit " due:" ++ c :: d)
      with (title t ++ [32] ++ (lit "due:" ++ c :: d)).
    rewrite app_assoc, take_app_length' by (rewrite length_app; simpl; lia).
    by rewrite (strip_app_space _ Hs).
  - by rewrite app_nil_r, Hn, Hs.
Qed.

Lemma due_read_back_rstrip d :
  due_keeps_title d -> due_read_back (rstrip <$> d) = due_read_back d.
Proof.
  destruct d as [[|c d]|]; [done| |done]. intros Hc. simpl in Hc.
  change (rstrip <$> Some (c :: d)) with (Some (rstrip (c :: d))).
  rewrite (rstrip_cons_nonspace c d Hc). unfold due_read_back.
  by rewrite <- (rstrip_cons_nonspace c d Hc), nonspace_run_rstrip.
Qed.

Lemma due_keeps_title_rstrip d :
  due_keeps_title d -> due_keeps_title (rstrip <$> d).
Proof.
  destruct d as [[|c d]|]; [done| |done]. intros Hc. simpl in Hc.
  change (rstrip <$> Some (c :: d)) with (Some (rstrip (c :: d))).
  by rewrite (rstrip_cons_nonspace c d Hc).
Qed.

(** What decoding makes of an encoded record: every field but the due date
    comes back as it was. *)
Lemma from_string_body_to_string t :
  header_safe t -> plain_title (title t) -> due_keeps_title (due_date t) ->
  from_string_body (to_string t)
  = Ok {| title := title t; due_date := due_read_back (due_date t);
          priority := priority t; category := category t;
          completed := completed t; created_at := created_at t |}.
Proof.
  intros Hh Ht Hdue.
  rewrite (from_string_body_of (with_due (rstrip <$> due_date t) t) (to_string t)).
  - cbn [title priority category completed created_at due_date with_due].
    by rewrite due_read_back_rstrip.
  - exact Hh.
  - exact Ht.
  - by apply due_keeps_title_rstrip.
  - apply strip_to_string; [apply Ht | exact Hdue].
Qed.

Lemma plain_due_keeps_title d : plain_due d -> due_keeps_title d.
Proof.
  destruct d as [[|c d]|]; [done| |done]. intros [_ H]. by inversion H.
Qed.

Lemma plain_due_read_back d : plain_due d -> due_read_back d = d.
Proof.
  destruct d as [[|c d]|]; [by intros [? _]| |done]. intros [_ H].
  unfold due_read_back. by rewrite nonspace_run_nonspace.
Qed.

(** C1 (as amended): for every record whose created_at, priority and
    category hold no '|', whose title has no white space at either end and
    no text matching due:<non-space>, and whose due_date is unset or a
    non-empty text free of white space, decoding the encoded line succeeds
    without a diagnostic and gives the record back in all six fields. *)
Theorem decode_encode_roundtrip (t : Task) :
  roundtrip_safe t -> from_string (to_string t) = (Some t, []).
Proof.
  intros (Hh & Ht & Hd). unfold from_string.
  rewrite (from_string_body_to_string t Hh Ht (plain_due_keeps_title _ Hd)).
  rewrite (plain_due_read_back _ Hd). by destruct t.
Qed.

(** C8 (as amended): for every record whose title contains '|', has no
    white space at either end and no text matching due:<non-space>, whose
    created_at, priority and category hold no '|', and whose due_date is
    unset, empty or starts with a character other than white space, decoding
    the encoded line succeeds and gives the title back unchanged. *)
Theorem title_with_bar_survives (t : Task) :
  bar ∈ title t ->
  header_safe t -> plain_title (title t) -> due_keeps_title (due_date t) ->
  exists t', from_string (to_string t) = (Some t', []) /\ title t' = title t.
Proof.
  intros _ Hh Ht Hd. unfold from_string.
  rewrite (from_string_body_to_string t Hh Ht Hd). by eexists.
Qed.

(** *** The conditions of the round trip are needed

    Conversely, a record that comes back from its own encoding satisfies
    every condition of [roundtrip_safe]. *)

Lemma split_fields_no_sep sep s : Forall (fun f => sep ∉ f) (split sep s).
Proof.
  induction s as [|c s IH]; simpl.
  - repeat constructor. apply not_elem_of_nil.
  - destruct (N.eqb_spec c sep) as [->|Hc].
    + constructor; [apply not_elem_of_nil|done].
    + destruct (split sep s) as [|f fs]; inversion IH; subst.
      * constructor; [|constructor].
        apply not_elem_of_cons. split; [congruence|apply not_elem_of_nil].
      * constructor; [|done]. apply not_elem_of_cons. split; [congruence|done].
Qed.

Lemma lstrip_head s :
  lstrip s = [] \/ exists c r, lstrip s = c :: r /\ is_space c = false.
Proof.
  induction s as [|c s IH]; simpl; [by left|].
  destruct (is_space c) eqn:Hc; [done|]. right. by exists c, s.
Qed.

Lemma rstrip_idem s : rstrip (rstrip s) = rstrip s.
Proof.
  induction s as [|c s IH]; [done|]. simpl.
  destruct (rstrip s) as [|a r] eqn:E.
  - destruct (is_space c) eqn:Hc; simpl; by rewrite ?Hc.
  - change (rstrip (c :: a :: r))
      with (match rstrip (a :: r) with
            | [] => if is_space c then [] else [c]
            | x :: y => c :: x :: y
            end).
    by rewrite IH.
Qed.

Lemma strip_idem s : strip (strip s) = strip s.
Proof.
  unfold strip. destruct (lstrip_head s) as [->|(c & r & -> & Hc)]; [done|].
  rewrite (rstrip_cons_nonspace c r Hc). cbn [lstrip]. rewrite Hc.
  by rewrite <- (rstrip_cons_nonspace c r Hc), rstrip_idem.
Qed.

Lemma lstrip_suffix s : exists ws, s = ws ++ lstrip s.
Proof.
  induction s as [|c s [ws IH]]; [by exists []|]. simpl.
  destruct (is_space c); [|by exists []].
  exists (c :: ws). simpl. by rewrite <- IH.
Qed.

Lemma rstrip_prefix s : exists ws, s = rstrip s ++ ws.
Proof.
  induction s as [|c s [ws IH]]; [by exists []|]. simpl.
  destruct (rstrip s) as [|a r].
  - destruct (is_space c); [by exists (c :: s)|].
    exists ws. simpl in *. by rewrite <- IH.
  - exists ws. simpl in *. by rewrite <- IH.
Qed.

Lemma match_due_here_group s g :
  match_due_here s = Some g -> g <> [] /\ Forall (fun c => is_space c = false) g.
Proof.
  unfold match_due_here. destruct (strip_prefix (lit "due:") s) as [r|]; [|done].
  assert (Forall (fun c => is_space c = false) (nonspace_run r)) as Hrun.
  { induction r as [|c r IH]; simpl; [done|].
    destruct (is_space c) eqn:Hc; [done|]. by constructor. }
  destruct (nonspace_run r); [done|]. by intros [= <-].
Qed.

Lemma match_due_here_app s y :
  is_Some (match_due_here s) -> is_Some (match_due_here (s ++ y)).
Proof.
  unfold match_due_here. destruct (strip_prefix (lit "due:") s) as [r|] eqn:E.
  - rewrite (strip_prefix_app_Some _ _ _ _ E).
    destruct r as [|c r]; simpl; [by intros [? [=]]|].
    destruct (is_space c); [by intros [? [=]]|]. by eexists.
  - by intros [? [=]].
Qed.

Lemma match_due_here_prefix_None s y :
  match_due_here (s ++ y) = None -> match_due_here s = None.
Proof.
  intros H. destruct (match_due_here s) eqn:E; [|done].
  destruct (match_due_here_app s y) as [g Hg]; [by eexists|]. congruence.
Qed.

Lemma search_due_from_nil i : search_due_from i [] = None.
Proof. done. Qed.

Lemma search_due_from_prefix_None i j x y :
  search_due_from i (x ++ y) = None -> search_due_from j x = None.
Proof.
  revert i j. induction x as [|a x IH]; intros i j H; [done|].
  change ((a :: x) ++ y) with (a :: (x ++ y)) in H.
  cbn [search_due_from] in *.
  destruct (match_due_here (a :: x ++ y)) eqn:E; [done|].
  rewrite (match_due_here_prefix_None (a :: x) y E). by eapply IH.
Qed.

Lemma search_due_from_suffix_None i j x y :
  search_due_from i (x ++ y) = None -> search_due_from j y = None.
Proof.
  revert i. induction x as [|a x IH]; intros i H.
  - by eapply search_due_from_None.
  - change ((a :: x) ++ y) with (a :: (x ++ y)) in H.
    cbn [search_due_from] in H.
    destruct (match_due_here (a :: x ++ y)); [done|]. by eapply IH.
Qed.

Lemma search_due_strip s : re_search_due s = None -> re_search_due (strip s) = None.
Proof.
  unfold re_search_due, strip. intros H.
  destruct (lstrip_suffix s) as [ws Hs]. rewrite Hs in H.
  apply (search_due_from_suffix_None 0 0) in H.
  destruct (rstrip_prefix (lstrip s)) as [ws' Hr]. rewrite Hr in H.
  by apply (search_due_from_prefix_None 0 0) in H.
Qed.

Lemma search_due_from_index i s start g :
  search_due_from i s = Some (start, g) -> (i <= start)%nat.
Proof.
  revert i. induction s as [|a s IH]; intros i; [done|].
  cbn [search_due_from]. destruct (match_due_here (a :: s)).
  - intros [= <- _]. lia.
  - intros H%IH. lia.
Qed.

(** Nothing matches before the leftmost match. *)
Lemma search_due_from_before i j s start g :
  search_due_from i s = Some (start, g) ->
  search_due_from j (take (start - i) s) = None.
Proof.
  revert i j. induction s as [|a s IH]; intros i j; [done|].
  cbn [search_due_from]. destruct (match_due_here (a :: s)) eqn:E.
  - intros [= <- _]. by rewrite Nat.sub_diag.
  - intros H. pose proof (search_due_from_index _ _ _ _ H) as Hle.
    replace (start - i)%nat with (S (start - S i)) by lia.
    cbn [take search_due_from].
    rewrite <- (take_drop (start - S i) s) in E.
    rewrite (match_due_here_prefix_None (a :: take (start - S i) s) _ E).
    by eapply IH.
Qed.

(** Whatever line it comes from, a decoded record has fields that the
    encoding can carry. *)
Lemma from_string_body_safe line t :
  from_string_body line = Ok t -> roundtrip_safe t.
Proof.
  unfold from_string_body.
  pose proof (split_fields_no_sep bar (strip line)) as Hf.
  destruct (split bar (strip line)) as [|m [|c [|p [|k parts]]]];
    try done.
  apply Forall_inv_tail in Hf. pose proof (Forall_inv Hf) as Hc.
  apply Forall_inv_tail in Hf. pose proof (Forall_inv Hf) as Hp.
  apply Forall_inv_tail in Hf. pose proof (Forall_inv Hf) as Hk. clear Hf.
  destruct (re_search_due (join [bar] parts)) as [[start g]|] eqn:E;
    intros [= <-]; (split; [done|]); simpl.
  - split; [split; [apply strip_idem|]|].
    + apply search_due_strip. unfold re_search_due in *.
      rewrite <- (Nat.sub_0_r start). by eapply search_due_from_before.
    + unfold re_search_due in E.
      assert (exists s, match_due_here s = Some g) as [s Hs].
      { clear -E. revert E. generalize 0%nat.
        induction (join [bar] parts) as [|a s IH]; intros i; [done|].
        cbn [search_due_from]. destruct (match_due_here (a :: s)) eqn:E.
        - intros [= _ <-]. by eexists.
        - apply IH. }
      by apply match_due_here_group in Hs.
  - split; [|done]. split; [apply strip_idem|by apply search_due_strip].
Qed.

Lemma roundtrip_safe_necessary t :
  from_string_body (to_string t) = Ok t -> roundtrip_safe t.
Proof. apply from_string_body_safe. Qed.

Lemma decode_encode_roundtrip_witness :
  roundtrip_safe buy_milk
  /\ from_string (to_string buy_milk) = (Some buy_milk, []).
Proof.
  assert (roundtrip_safe buy_milk) as H by (repeat split; compute_done).
  split; [exact H|]. apply (decode_encode_roundtrip buy_milk). exact H.
Defined.

(** C1 as stated ("any title text ... any priority and category strings")
    fails: white space around the title is stripped, a due token inside the
    title is read as the due date, a '|' in the category shifts the fields,
    an empty due date is not written, and a due date is read only up to its
    first white space. *)
Lemma decode_encode_roundtrip_fails :
  (from_string (to_string padded)
     = (Some (mkTask (lit "milk") None (lit "medium") (lit "personal") false stamp), [])
   /\ from_string (to_string padded) <> (Some padded, []))
  /\ (from_string (to_string pay_friday)
        = (Some (mkTask (lit "pay") (Some (lit "friday")) (lit "medium")
                   (lit "personal") false stamp), [])
      /\ from_string (to_string pay_friday) <> (Some pay_friday, []))
  /\ (from_string (to_string two_categories)
        = (Some (mkTask (lit "work|milk") None (lit "medium") (lit "home")
                   false stamp), [])
      /\ from_string (to_string two_categories) <> (Some two_categories, []))
  /\ (from_string (to_string empty_due)
        = (Some (mkTask (lit "milk") None (lit "medium") (lit "personal")
                   false stamp), [])
      /\ from_string (to_string empty_due) <> (Some empty_due, []))
  /\ (from_string (to_string next_week)
        = (Some (mkTask (lit "milk") (Some (lit "next")) (lit "medium")
                   (lit "personal") false stamp), [])
      /\ from_string (to_string next_week) <> (Some next_week, [])).
Proof. repeat split; vm_compute; congruence. Qed.

Lemma title_with_bar_survives_witness :
  bar ∈ title paint
  /\ exists t', from_string (to_string paint) = (Some t', []) /\ title t' = title paint.
Proof.
  split; [compute_done|].
  apply (title_with_bar_survives paint); [compute_done| | |reflexivity].
  - repeat split; compute_done.
  - split; reflexivity.
Defined.

(** C8 as stated (every record whose title contains '|') fails: such a
    title still loses white space at its ends and a due token inside it,
    receives the tail of a category that contains '|', and absorbs a due
    date that starts with white space. *)
Lemma title_with_bar_lost :
  (bar ∈ title bar_padded
   /\ exists t', from_string (to_string bar_padded) = (Some t', [])
                 /\ title t' = lit "a|b" /\ title t' <> title bar_padded)
  /\ (bar ∈ title bar_pay_friday
      /\ exists t', from_string (to_string bar_pay_friday) = (Some t', [])
                    /\ title t' = lit "rent|pay"
                    /\ title t' <> title bar_pay_friday)
  /\ (bar ∈ title bar_two_categories
      /\ exists t', from_string (to_string bar_two_categories) = (Some t', [])
                    /\ title t' = lit "work|a|b"
                    /\ title t' <> title bar_two_categories)
  /\ (bar ∈ title bar_late_due
      /\ exists t', from_string (to_string bar_late_due) = (Some t', [])
                    /\ title t' = lit "a|b due: friday"
                    /\ title t' <> title bar_late_due).
Proof.
  repeat split; try compute_done;
    (eexists; split; [vm_compute; reflexivity|]; split; vm_compute; congruence).
Qed.

(** ** Where the due token appears *)

Lemma contains_unfold p s :
  contains p s
  = match strip_prefix p s with
    | Some _ => true
    | None => match s with [] => false | _ :: s' => contains p s' end
    end.
Proof. by destruct s. Qed.

Lemma contains_app_sep p x c y :
  p <> [] -> c ∉ p ->
  contains p (x ++ c :: y) = contains p x || contains p y.
Proof.
  intros Hp Hc. induction x as [|b x IH].
  - destruct p as [|a p]; [done|].
    apply not_elem_of_cons in Hc as [Hca _]. simpl.
    destruct (N.eqb_spec a c) as [->|_]; done.
  - change ((b :: x) ++ c :: y) with (b :: (x ++ c :: y)).
    rewrite (contains_unfold p (b :: (x ++ c :: y))), (contains_unfold p (b :: x)).
    change (b :: (x ++ c :: y)) with ((b :: x) ++ c :: y).
    destruct (strip_prefix p (b :: x)) as [r|] eqn:E.
    + by rewrite (strip_prefix_app_Some _ _ _ _ E).
    + by rewrite (strip_prefix_app_sep _ _ _ _ Hc E).
Qed.

Lemma contains_inside p x y : contains p (x ++ p ++ y) = true.
Proof.
  induction x as [|b x IH].
  - simpl app. by rewrite contains_unfold, strip_prefix_self.
  - simpl. by destruct (strip_prefix p (b :: x ++ p ++ y)).
Qed.

Lemma contains_mark t : contains (lit "due:") (completed_mark t) = false.
Proof. unfold completed_mark. by destruct (completed t). Qed.

Lemma contains_due_to_string t :
  no_due_text t ->
  contains (lit "due:") (to_string t) = contains (lit "due:") (title t ++ due_str t).
Proof.
  intros (Hc & Hp & Hk & _). unfold to_string. cbn [app].
  rewrite !(contains_app_sep (lit "due:")) by (done || apply bar_not_in_due).
  by rewrite contains_mark, Hc, Hp, Hk.
Qed.

(** C2 (as amended): for every record, the encoder appends " due:<due_date>"
    right after the title exactly when due_date is a non-empty text, and
    otherwise ends the line with the title; so every record whose due_date
    is a non-empty text is encoded to a line that contains "due:", and for a
    record none of whose other fields contains the text "due:", the encoded
    line contains "due:" if and only if due_date is set to a non-empty
    text. *)
Theorem due_token_iff_due_set (t : Task) :
  (forall d, due_date t = Some d -> d <> [] ->
     to_string t = header t ++ title t ++ lit " due:" ++ d)
  /\ (due_date t = None \/ due_date t = Some [] ->
        to_string t = header t ++ title t)
  /\ ((exists d, due_date t = Some d /\ d <> []) ->
        contains (lit "due:") (to_string t) = true)
  /\ (no_due_text t ->
        (contains (lit "due:") (to_string t) = true
         <-> exists d, due_date t = Some d /\ d <> [])).
Proof.
  assert (forall d, due_date t = Some d -> d <> [] ->
            to_string t = header t ++ title t ++ lit " due:" ++ d) as Hset.
  { intros d Hd Hne. unfold to_string, header, due_str. rewrite Hd.
    destruct d; [done|]. cbn [truthy]. by rewrite <- !app_assoc. }
  assert ((exists d, due_date t = Some d /\ d <> []) ->
            contains (lit "due:") (to_string t) = true) as Hin.
  { intros (d & Hd & Hne). rewrite (Hset d Hd Hne).
    change (lit " due:" ++ d) with ([32] ++ lit "due:" ++ d).
    rewrite !app_assoc, <- (app_assoc _ (lit "due:") d).
    apply contains_inside. }
  split; [exact Hset|]. split; [|split; [exact Hin|]].
  - unfold to_string, header, due_str.
    intros [-> | ->]; cbn [truthy]; by rewrite <- !app_assoc, ?app_nil_r.
  - intros Hn. split; [|exact Hin].
    rewrite (contains_due_to_string t Hn). destruct Hn as (_ & _ & _ & Ht).
    unfold due_str. destruct (due_date t) as [[|c d]|]; cbn [truthy].
    + by rewrite app_nil_r, Ht.
    + intros _. by eexists.
    + by rewrite app_nil_r, Ht.
Qed.

Lemma due_token_iff_due_set_witness :
  no_due_text buy_milk
  /\ (contains (lit "due:") (to_string buy_milk) = true
      <-> exists d, due_date buy_milk = Some d /\ d <> []).
Proof.
  assert (no_due_text buy_milk) as H by (repeat split; reflexivity).
  split; [exact H|].
  exact (proj2 (proj2 (proj2 (due_token_iff_due_set buy_milk))) H).
Defined.

(** C2 as stated fails in both directions: a record with due_date unset
    whose title holds a due token, or whose category holds the text, is
    encoded to a line that contains it, and a record whose due_date is the
    empty text is encoded without one. *)
Lemma due_token_without_due_set :
  (due_date pay_friday = None
   /\ to_string pay_friday = lit "-|2025-01-09 08:30|medium|personal|pay due:friday"
   /\ contains (lit "due:") (to_string pay_friday) = true)
  /\ (due_date overdue = None
      /\ to_string overdue = lit "-|2025-01-09 08:30|medium|overdue:|milk"
      /\ contains (lit "due:") (to_string overdue) = true)
  /\ (due_date empty_due = Some []
      /\ to_string empty_due = lit "-|2025-01-09 08:30|medium|personal|milk"
      /\ contains (lit "due:") (to_string empty_due) = false).
Proof. repeat split. Qed.

(** ** Completing a task *)

(** C5: for a position outside 1..N the store prints the invalid number
    message and nothing else; no write happens and both the in-memory
    sequence and the file are left as they were.  Positions 0 and N+1 are
    instances. *)
Theorem complete_out_of_range (q : QuickDo) (p : Z) :
  (p < 1 \/ Z.of_nat (length (tasks q)) < p)%Z ->
  complete_task p q = (Ok q, [Print MsgInvalidNumber]).
Proof.
  intros Hp. unfold complete_task.
  destruct (Z.leb_spec 1 p), (Z.leb_spec p (Z.of_nat (length (tasks q))));
    simpl; try done; lia.
Qed.

Lemma complete_out_of_range_witness :
  complete_task 0 sample_store = (Ok sample_store, [Print MsgInvalidNumber])
  /\ complete_task (Z.of_nat (length (tasks sample_store)) + 1) sample_store
     = (Ok sample_store, [Print MsgInvalidNumber]).
Proof.
  split.
  - apply (complete_out_of_range sample_store 0). left. lia.
  - apply (complete_out_of_range sample_store). right. lia.
Defined.

(** C4 (as amended): for 1 <= p <= N, completing position p sets the
    completed flag of the record at position p to true (a record that was
    already completed stays completed), rewrites the whole file from the
    updated sequence and reports the title; every other record and every
    other field of record p is unchanged. *)
Theorem complete_in_range (q : QuickDo) (p : Z) :
  (1 <= p <= Z.of_nat (length (tasks q)))%Z ->
  exists t t' q',
    tasks q !! Z.to_nat (p - 1) = Some t
    /\ complete_task p q
       = (Ok q', [WriteTasksFile (serialize (tasks q')); Print (MsgCompleted (title t))])
    /\ tasks_file q' = serialize (tasks q')
    /\ length (tasks q') = length (tasks q)
    /\ tasks q' !! Z.to_nat (p - 1) = Some t'
    /\ completed t' = true
    /\ title t' = title t /\ due_date t' = due_date t /\ priority t' = priority t
    /\ category t' = category t /\ created_at t' = created_at t
    /\ forall j, j <> Z.to_nat (p - 1) -> tasks q' !! j = tasks q !! j.
Proof.
  intros Hp. unfold complete_task.
  destruct (Z.leb_spec 1 p), (Z.leb_spec p (Z.of_nat (length (tasks q))));
    try lia. simpl.
  destruct (lookup_lt_is_Some_2 (tasks q) (Z.to_nat (p - 1))) as [t Ht]; [lia|].
  rewrite Ht. exists t, (set_completed t).
  exists (mkQuickDo (alter set_completed (Z.to_nat (p - 1)) (tasks q))
            (serialize (alter set_completed (Z.to_nat (p - 1)) (tasks q)))).
  simpl. split; [done|]. split; [reflexivity|].
  split; [done|]. split; [apply length_alter|].
  split; [by rewrite list_lookup_alter_eq, Ht|].
  repeat (split; [done|]).
  intros j Hj. by apply list_lookup_alter_ne.
Qed.

Lemma complete_in_range_witness :
  (1 <= 2 <= Z.of_nat (length (tasks sample_store)))%Z
  /\ exists t t' q',
    tasks sample_store !! Z.to_nat (2 - 1) = Some t
    /\ complete_task 2 sample_store
       = (Ok q', [WriteTasksFile (serialize (tasks q')); Print (MsgCompleted (title t))])
    /\ tasks_file q' = serialize (tasks q')
    /\ length (tasks q') = length (tasks sample_store)
    /\ tasks q' !! Z.to_nat (2 - 1) = Some t'
    /\ completed t' = true
    /\ title t' = title t /\ due_date t' = due_date t /\ priority t' = priority t
    /\ category t' = category t /\ created_at t' = created_at t
    /\ forall j, j <> Z.to_nat (2 - 1) -> tasks q' !! j = tasks sample_store !! j.
Proof.
  assert (1 <= 2 <= Z.of_nat (length (tasks sample_store)))%Z as H by (simpl; lia).
  split; [exact H|]. apply (complete_in_range sample_store 2 H).
Defined.

(** C4 as stated fails: completing a record that is already completed does
    not flip its flag back; the flag stays true. *)
Lemma complete_does_not_flip :
  completed paint = true
  /\ tasks sample_store !! 0%nat = Some paint
  /\ exists q', fst (complete_task 1 sample_store) = Ok q'
                /\ completed <$> tasks q' !! 0%nat = Some true
                /\ completed <$> tasks q' !! 0%nat <> Some (negb (completed paint)).
Proof.
  split; [done|]. split; [done|]. eexists. split; [reflexivity|]. by split.
Qed.

(** ** Listing *)

Lemma list_loop_rows i ts :
  list_loop false i ts
  = row <$> filter (fun it => completed (snd it) = false)
              (imap (fun k t => ((Z.of_nat k + i)%Z, t)) ts).
Proof.
  revert i. induction ts as [|t ts IH]; intros i; [done|].
  rewrite imap_cons, filter_cons. cbn [list_loop snd].
  rewrite (IH (i + 1)%Z).
  rewrite (imap_ext (fun k t => ((Z.of_nat k + (i + 1))%Z, t))
             ((fun k t => ((Z.of_nat k + i)%Z, t)) ∘ S))
    by (intros; simpl; f_equal; lia).
  destruct (completed t); simpl; try case_decide; done.
Qed.

Lemma elem_of_positions ts i t :
  (i, t) ∈ positions ts <-> (1 <= i)%Z /\ ts !! Z.to_nat (i - 1) = Some t.
Proof.
  unfold positions. rewrite elem_of_lookup_imap. split.
  - intros (k & y & [= -> ->] & Hk). split; [lia|].
    by replace (Z.to_nat (Z.of_nat k + 1 - 1)) with k by lia.
  - intros [Hi Ht]. exists (Z.to_nat (i - 1)), t. split; [|done].
    f_equal. lia.
Qed.

(** C9: without completed records shown, the store prints one row for each
    record that is not completed and for no other, in order, each with its
    position counted from 1 over the whole sequence, so completed records
    use up their numbers; on a completed record followed by an active one
    the only row is the active record with position 2. *)
Theorem list_active_rows (q : QuickDo) :
  list_tasks false q
  = match tasks q with
    | [] => [Print MsgNoTasks]
    | _ :: _ =>
        Print MsgListHeader
          :: (row <$> filter (fun it => completed (snd it) = false)
                        (positions (tasks q)))
    end
  /\ (forall i t, (i, t) ∈ positions (tasks q)
                  <-> (1 <= i)%Z /\ tasks q !! Z.to_nat (i - 1) = Some t)
  /\ (forall ttl1 due1 prio1 cat1 at1 ttl2 due2 prio2 cat2 at2 file,
        list_tasks false
          (mkQuickDo [mkTask ttl1 due1 prio1 cat1 true at1;
                      mkTask ttl2 due2 prio2 cat2 false at2] file)
        = [Print MsgListHeader;
           Print (task_line 2 (mkTask ttl2 due2 prio2 cat2 false at2))]).
Proof.
  split; [|split].
  - unfold list_tasks, positions. destruct (tasks q) as [|t ts]; [done|].
    by rewrite list_loop_rows.
  - intros i t. apply elem_of_positions.
  - done.
Qed.

Example list_sample_store :
  list_tasks false sample_store
  = [Print MsgListHeader;
     Print (MsgTaskLine 2 (lit "-") [10071] (lit "Buy milk") (lit "[errand]")
              (lit " [2025-01-10]"))].
Proof. reflexivity. Qed.

(** ** Loading *)

Lemma n_fields_blank line : strip line = [] -> n_fields line = 1%nat.
Proof. unfold n_fields. by intros ->. Qed.

Lemma from_string_cases line :
  match from_string line with
  | (Some _, out) => (4 <= n_fields line)%nat /\ out = []
  | (None, out) => (n_fields line < 4)%nat /\ out = diagnostic line
  end.
Proof.
  unfold from_string, from_string_body, diagnostic, n_fields.
  destruct (split bar (strip line)) as [|a [|b [|c [|d parts]]]]; simpl;
    try (split; [lia|done]).
  destruct (re_search_due (join [bar] parts)) as [[start g]|]; simpl;
    (split; [lia|done]).
Qed.

Lemma load_loop_spec lines acc :
  exists ts,
    fst (load_loop lines acc) = acc ++ ts
    /\ Forall2 (fun line t => from_string line = (Some t, []))
         (filter (fun l => (4 <= n_fields l)%nat) lines) ts
    /\ snd (load_loop lines acc)
       = concat (diagnostic <$>
                   filter (fun l => strip l <> [] /\ (n_fields l < 4)%nat) lines).
Proof.
  revert acc. induction lines as [|line rest IH]; intros acc.
  - exists []. by rewrite app_nil_r.
  - rewrite !filter_cons. cbn [load_loop].
    pose proof (from_string_cases line) as Hc.
    destruct (strip line) as [|c s] eqn:Hs.
    + pose proof (n_fields_blank line Hs) as Hn.
      destruct (IH acc) as (ts & H1 & H2 & H3). exists ts.
      rewrite !decide_False by (rewrite ?Hn; intuition lia). done.
    + destruct (from_string line) as [[t|] out] eqn:Hf; destruct Hc as [Hn ->].
      * destruct (IH (acc ++ [t])) as (ts & H1 & H2 & H3).
        destruct (load_loop rest (acc ++ [t])) as [ts' out'].
        exists (t :: ts). simpl in *.
        rewrite decide_True by done. rewrite decide_False by lia.
        split; [by rewrite H1, <- app_assoc|]. split; [by constructor|done].
      * destruct (IH acc) as (ts & H1 & H2 & H3).
        destruct (load_loop rest acc) as [ts' out'].
        exists ts. simpl in *.
        rewrite decide_False by lia. rewrite decide_True by done.
        split; [done|]. split; [done|]. by rewrite H3.
Qed.

(** C6: decoding a line that splits into fewer than four fields fails with
    the two diagnostic lines (the line, then the cause) and decoding a line
    with four or more fields succeeds silently; loading never raises: it
    keeps, in file order, the decodings of exactly the lines with four or
    more fields, and prints the diagnostics of the other lines that are not
    blank (blank lines are skipped before decoding). *)
Theorem load_skips_short_lines (lines : list str) :
  (forall line,
     match from_string line with
     | (Some _, out) => (4 <= n_fields line)%nat /\ out = []
     | (None, out) => (n_fields line < 4)%nat /\ out = diagnostic line
     end)
  /\ Forall2 (fun line t => from_string line = (Some t, []))
       (filter (fun l => (4 <= n_fields l)%nat) lines)
       (fst (load_loop lines []))
  /\ snd (load_loop lines [])
     = concat (diagnostic <$>
                 filter (fun l => strip l <> [] /\ (n_fields l < 4)%nat) lines).
Proof.
  split; [apply from_string_cases|].
  destruct (load_loop_spec lines []) as (ts & H1 & H2 & H3).
  rewrite H1. done.
Qed.

Example load_three_lines :
  load_tasks (lit "+|2025-01-09 08:30|low|home|sweep" ++ [newline]
              ++ lit "broken|line" ++ [newline] ++ lit "   " ++ [newline]
              ++ lit "-|2025-01-09 08:31|high|work|ship it due:friday" ++ [newline])
  = ([mkTask (lit "sweep") None (lit "low") (lit "home") true (lit "2025-01-09 08:30");
      mkTask (lit "ship it") (Some (lit "friday")) (lit "high") (lit "work") false
        (lit "2025-01-09 08:31")],
     [Print (MsgReadError (lit "broken|line" ++ [newline]));
      Print (MsgCause (NotEnoughValues 4 2))]).
Proof. vm_compute. reflexivity. Qed.

(** ** Report *)

Lemma str_eqb_spec a b : reflect (a = b) (str_eqb a b).
Proof. apply bool_decide_reflect. Qed.

Lemma dict_get_set c k v d :
  dict_get c (dict_set k v d) = if str_eqb k c then v else dict_get c d.
Proof.
  induction d as [|[k' w] d IH]; simpl; [done|].
  destruct (str_eqb_spec k' k) as [->|Hk]; simpl.
  - by destruct (str_eqb_spec k c).
  - rewrite IH.
    destruct (str_eqb_spec k' c) as [->|], (str_eqb_spec k c) as [->|]; done.
Qed.

Lemma dict_keys_set c k v d :
  c ∈ (dict_set k v d).*1 <-> c = k \/ c ∈ d.*1.
Proof.
  induction d as [|[k' w] d IH]; simpl.
  - rewrite list_elem_of_singleton, elem_of_nil. tauto.
  - destruct (str_eqb_spec k' k) as [->|Hk]; simpl;
      rewrite !elem_of_cons; [|rewrite IH]; tauto.
Qed.

(** Every time stamp of a given list parses: by running the parser. *)
Ltac all_parse :=
  repeat (constructor; [eexists; vm_compute; reflexivity|]); constructor.

Section ReportProperties.
Variable strptime : str -> option datetime.
Variable now : datetime.

Lemma report_loop_tally start ts a :
  Forall (parses strptime) ts ->
  exists a',
    report_loop strptime start ts a = Ok a'
    /\ n_completed a'
       = (n_completed a
          + count (fun t => in_window strptime start t && completed t) ts)%Z
    /\ n_remaining a'
       = (n_remaining a
          + count (fun t => in_window strptime start t && negb (completed t)) ts)%Z
    /\ (forall c,
          dict_get c (categories a')
          = (dict_get c (categories a)
             + count (fun t => in_window strptime start t
                               && str_eqb (category t) c) ts)%Z)
    /\ (forall c,
          c ∈ (categories a').*1
          <-> c ∈ (categories a).*1
              \/ exists t, t ∈ ts /\ in_window strptime start t = true
                           /\ category t = c).
Proof.
  intros Hall. revert a. induction Hall as [|t ts [d Hd] _ IH]; intros a.
  - exists a. simpl. repeat split; try (intros; lia).
    + tauto.
    + intros [?|(t & Ht & _)]; [done|]. by apply elem_of_nil in Ht.
  - cbn [report_loop count]. rewrite Hd.
    destruct (IH (count_task start d t a)) as (a' & Hrun & Hc & Hr & Hg & Hk).
    exists a'. split; [done|].
    assert (in_window strptime start t = (start <=? d)%Z) as Hw
      by (unfold in_window; by rewrite Hd).
    rewrite Hw. unfold count_task in Hc, Hr, Hg, Hk. clear Hrun IH.
    destruct (Z.leb_spec start d) as [Hin|Hout]; simpl in *.
    + split; [destruct (completed t); simpl; lia|].
      split; [destruct (completed t); simpl; lia|].
      split.
      * intros c. rewrite Hg, dict_get_set.
        destruct (str_eqb_spec (category t) c) as [<-|]; lia.
      * intros c. rewrite Hk, dict_keys_set. split.
        -- intros [[->|?]|(t' & Ht' & Hw' & Hcat)]; [right|by left|right].
           ++ exists t. split; [by left|done].
           ++ exists t'. split; [by right|done].
        -- intros [?|(t' & Ht' & Hw' & Hcat)]; [by left; right|].
           apply elem_of_cons in Ht' as [->|Ht']; [by left; left|].
           right. by exists t'.
    + split; [lia|]. split; [lia|]. split; [intros c; rewrite Hg; lia|].
      intros c. rewrite Hk. split.
      * intros [?|(t' & Ht' & Hw' & Hcat)]; [by left|right].
        exists t'. split; [by right|done].
      * intros [?|(t' & Ht' & Hw' & Hcat)]; [by left|].
        apply elem_of_cons in Ht' as [->|Ht']; [congruence|].
        right. by exists t'.
Qed.

Lemma report_loop_raise start good bad rest a :
  Forall (parses strptime) good -> strptime (created_at bad) = None ->
  report_loop strptime start (good ++ bad :: rest) a
  = Raise (TimeDataMismatch (created_at bad)).
Proof.
  intros Hgood Hbad. revert a.
  induction Hgood as [|t ts [d Hd] _ IH]; intros a; simpl.
  - by rewrite Hbad.
  - rewrite Hd. apply IH.
Qed.

Lemma first_unparsed ts :
  (exists t, t ∈ ts /\ strptime (created_at t) = None) ->
  exists good bad rest,
    ts = good ++ bad :: rest /\ Forall (parses strptime) good
    /\ strptime (created_at bad) = None.
Proof.
  induction ts as [|t ts IH]; intros (b & Hb & Hnone).
  - by apply elem_of_nil in Hb.
  - destruct (strptime (created_at t)) as [d|] eqn:Hd.
    + apply elem_of_cons in Hb as [->|Hb]; [congruence|].
      destruct IH as (good & bad & rest & -> & Hg & Hbad); [by exists b|].
      exists (t :: good), bad, rest. split; [done|]. split; [|done].
      constructor; [by exists d|done].
    + exists [], t, ts. by repeat split.
Qed.

Lemma start_of_period period :
  period = lit "day" \/ period = lit "week" ->
  start_of now period = Some (now - timedelta_days (window_days period))%Z.
Proof. by intros [-> | ->]. Qed.
End ReportProperties.

(** C7: for the periods day (one day back) and week (seven days back) and
    a sequence whose time stamps all parse, the report is printed from
    tallies in which a record counts if and only if its time stamp is not
    before now minus the window: completed and remaining count the
    completed and the other records in the window, a category's tally counts
    the records of that category in the window, and a category is listed
    only if some record in the window has it.  For day, a record stamped two
    days back or more is outside and one stamped an hour (and up to a
    minute more) back is inside. *)
Theorem report_counts_window (strptime : str -> option datetime)
    (now : datetime) (period : str) (q : QuickDo) :
  period = lit "day" \/ period = lit "week" ->
  Forall (parses strptime) (tasks q) ->
  (forall t d, strptime (created_at t) = Some d ->
     (in_window strptime (window_start now period) t = true
      <-> (now - timedelta_days (window_days period) <= d)%Z))
  /\ (window_days (lit "day") = 1%Z /\ window_days (lit "week") = 7%Z)
  /\ (forall t d, period = lit "day" -> strptime (created_at t) = Some d ->
        ((d <= now - timedelta_days 2)%Z ->
         in_window strptime (window_start now period) t = false)
        /\ ((now - timedelta_hours 1 - timedelta_minutes 1 <= d)%Z ->
            in_window strptime (window_start now period) t = true))
  /\ exists a,
       report strptime now period q = (Ok tt, report_lines period a)
       /\ n_completed a
          = count (fun t => in_window strptime (window_start now period) t
                            && completed t) (tasks q)
       /\ n_remaining a
          = count (fun t => in_window strptime (window_start now period) t
                            && negb (completed t)) (tasks q)
       /\ (forall c,
             dict_get c (categories a)
             = count (fun t => in_window strptime (window_start now period) t
                               && str_eqb (category t) c) (tasks q))
       /\ (forall c,
             c ∈ (categories a).*1
             <-> exists t, t ∈ tasks q
                           /\ in_window strptime (window_start now period) t = true
                           /\ category t = c).
Proof.
  intros Hperiod Hall. split; [|split; [done|split]].
  - intros t d Hd. unfold in_window, window_start. rewrite Hd. apply Z.leb_le.
  - intros t d -> Hd. unfold in_window, window_start. rewrite Hd.
    change (window_days (lit "day")) with 1%Z.
    unfold timedelta_days, timedelta_hours, timedelta_minutes.
    split; intros H; [apply Z.leb_gt|apply Z.leb_le]; lia.
  - unfold report. rewrite (start_of_period now period Hperiod).
    fold (window_start now period).
    destruct (report_loop_tally strptime (window_start now period) (tasks q)
                (mkTally 0 0 []) Hall) as (a & -> & Hc & Hr & Hg & Hk).
    exists a. simpl in *. split; [done|]. split; [lia|]. split; [lia|].
    split; [intros c; rewrite Hg; lia|].
    intros c. rewrite Hk, elem_of_nil. tauto.
Qed.

Lemma report_counts_window_witness :
  (lit "day" = lit "day" \/ lit "day" = lit "week")
  /\ Forall (parses strptime_ascii) (tasks dated_store)
  /\ exists a,
       report strptime_ascii sample_now (lit "day") dated_store
       = (Ok tt, report_lines (lit "day") a)
       /\ n_completed a
          = count (fun t => in_window strptime_ascii
                              (window_start sample_now (lit "day")) t
                            && completed t) (tasks dated_store)
       /\ n_remaining a
          = count (fun t => in_window strptime_ascii
                              (window_start sample_now (lit "day")) t
                            && negb (completed t)) (tasks dated_store).
Proof.
  assert (Forall (parses strptime_ascii) (tasks dated_store)) as Hall
    by (all_parse).
  split; [by left|]. split; [exact Hall|].
  destruct (report_counts_window strptime_ascii sample_now (lit "day")
              dated_store (or_introl eq_refl) Hall)
    as (_ & _ & _ & a & Hrun & Hc & Hr & _).
  exists a. repeat split; assumption.
Defined.

Example strptime_ascii_samples :
  strptime_ascii (lit "2025-01-10 12:00") = Some 63872193600000000%Z
  /\ strptime_ascii (lit "2024-02-29 7:05") = Some 63844873500000000%Z
  /\ strptime_ascii (lit "2025-02-29 12:00") = None
  /\ strptime_ascii (lit "2025-01-10 12:60") = None
  /\ strptime_ascii (lit "2025-01-10") = None.
Proof. vm_compute. repeat split. Qed.

Example report_day_dated_store :
  report strptime_ascii sample_now (lit "day") dated_store
  = (Ok tt, [Print (MsgReportHeader (lit "day"));
             Print (MsgReportCompleted 0);
             Print (MsgReportRemaining 1);
             Print MsgByCategory;
             Print (MsgCategoryLine (lit "home") 1)]).
Proof. vm_compute. reflexivity. Qed.

Example report_week_dated_store :
  report strptime_ascii sample_now (lit "week") dated_store
  = (Ok tt, [Print (MsgReportHeader (lit "week"));
             Print (MsgReportCompleted 1);
             Print (MsgReportRemaining 2);
             Print MsgByCategory;
             Print (MsgCategoryLine (lit "home") 2);
             Print (MsgCategoryLine (lit "work") 1)]).
Proof. vm_compute. reflexivity. Qed.

Example report_month_undated_store :
  report strptime_ascii sample_now (lit "month") undated_store
  = (Ok tt, [Print MsgUnsupportedPeriod]).
Proof. reflexivity. Qed.

(** C10: for the periods day and week the report completes exactly when
    every time stamp parses.  The scan raises at the first record whose
    time stamp does not parse, whatever follows, and nothing has been
    printed by then; when all parse, the report lines are printed and no
    exception is raised. *)
Theorem report_needs_parsed_stamps (strptime : str -> option datetime)
    (now : datetime) (period : str) (q : QuickDo) :
  period = lit "day" \/ period = lit "week" ->
  (forall good bad rest,
     tasks q = good ++ bad :: rest ->
     Forall (parses strptime) good -> strptime (created_at bad) = None ->
     report strptime now period q = (Raise (TimeDataMismatch (created_at bad)), []))
  /\ ((exists t, t ∈ tasks q /\ strptime (created_at t) = None) ->
      exists e, report strptime now period q = (Raise e, []))
  /\ (Forall (parses strptime) (tasks q) ->
      exists a, report strptime now period q = (Ok tt, report_lines period a)).
Proof.
  intros Hperiod.
  assert (forall good bad rest,
            tasks q = good ++ bad :: rest ->
            Forall (parses strptime) good -> strptime (created_at bad) = None ->
            report strptime now period q
            = (Raise (TimeDataMismatch (created_at bad)), [])) as Hraise.
  { intros good bad rest Hq Hgood Hbad. unfold report.
    rewrite (start_of_period now period Hperiod), Hq.
    by rewrite (report_loop_raise strptime _ good bad rest _ Hgood Hbad). }
  split; [exact Hraise|]. split.
  - intros Hex. destruct (first_unparsed strptime _ Hex)
      as (good & bad & rest & Hq & Hgood & Hbad).
    eexists. by apply (Hraise good bad rest).
  - intros Hall. unfold report. rewrite (start_of_period now period Hperiod).
    destruct (report_loop_tally strptime
                (now - timedelta_days (window_days period))%Z (tasks q)
                (mkTally 0 0 []) Hall) as (a & -> & _).
    by exists a.
Qed.

Lemma report_needs_parsed_stamps_witness :
  report strptime_ascii sample_now (lit "day") undated_store
  = (Raise (TimeDataMismatch (lit "yesterday")), [])
  /\ exists a, report strptime_ascii sample_now (lit "week") dated_store
               = (Ok tt, report_lines (lit "week") a).
Proof.
  split.
  - apply (proj1 (report_needs_parsed_stamps strptime_ascii sample_now (lit "day")
                    undated_store (or_introl eq_refl))
             [two_days_ago] no_stamp [one_hour_ago]).
    + reflexivity.
    + all_parse.
    + reflexivity.
  - apply (proj2 (proj2 (report_needs_parsed_stamps strptime_ascii sample_now
                           (lit "week") dated_store (or_intror eq_refl)))).
    all_parse.
Defined.

(** ** Reminder delays *)

(** Decide the comparisons of code points in the goal. *)
Ltac case_compare :=
  repeat match goal with
         | |- context [N.leb ?x ?y] => destruct (N.leb_spec x y); try lia
         | |- context [N.eqb ?x ?y] => destruct (N.eqb_spec x y); try lia
         end.

Lemma parse_delay_last s c :
  parse_delay (s ++ [c])
  = match py_int s with
    | Raise e => Raise e
    | Ok value => Ok (value * units_get (lower c))%Z
    end.
Proof. unfold parse_delay. by rewrite rev_unit, rev_involutive. Qed.

(** With a unit letter the delay is the number times 60, 3600 or 86400. *)
Lemma parse_delay_unit s v :
  py_int s = Ok v ->
  parse_delay (s ++ lit "m") = Ok (v * 60)%Z
  /\ parse_delay (s ++ lit "h") = Ok (v * 3600)%Z
  /\ parse_delay (s ++ lit "d") = Ok (v * 86400)%Z.
Proof.
  intros Hv. change (lit "m") with [109]. change (lit "h") with [104].
  change (lit "d") with [100]. rewrite !parse_delay_last, Hv. done.
Qed.

(** Without a unit letter the last digit is taken for the unit and lost. *)
Lemma parse_delay_no_unit s c v :
  py_int s = Ok v -> is_Some (digit_value c) ->
  parse_delay (s ++ [c]) = Ok (v * 60)%Z.
Proof.
  intros Hv [d Hd]. rewrite parse_delay_last, Hv. do 2 f_equal.
  unfold digit_value in Hd. unfold units_get, lower.
  destruct (N.leb_spec 48 c), (N.leb_spec c 57); simpl in Hd; try done.
  destruct (N.leb_spec 65 c), (N.leb_spec c 90); simpl; try lia.
  all: by case_compare.
Qed.

Lemma digit_value_digit c :
  is_digit c -> digit_value c = Some (Z.of_N c - 48)%Z.
Proof.
  intros [Hlo Hhi]. unfold digit_value.
  by destruct (N.leb_spec 48 c), (N.leb_spec c 57); try lia.
Qed.

Lemma int_digits_numeral s acc prev :
  Forall is_digit s -> s <> [] ->
  int_digits acc prev s
  = Some (fold_left (fun a c => (10 * a + (Z.of_N c - 48))%Z) s acc).
Proof.
  intros Hs. revert acc prev. induction Hs as [|c s Hc Hs IH]; intros acc prev Hne.
  - done.
  - simpl. rewrite (digit_value_digit c Hc).
    destruct s as [|c' s]; [done|]. by apply IH.
Qed.

(** [int] reads a text of digits as the number it denotes. *)
Lemma py_int_numeral s :
  Forall is_digit s -> s <> [] -> py_int s = Ok (numeral_value s).
Proof.
  intros Hs Hne. unfold py_int, numeral_value.
  destruct s as [|c s]; [done|].
  pose proof (Forall_inv Hs) as [Hlo Hhi].
  assert (is_int_space c = false) as Hsp.
  { unfold is_int_space, is_space.
    by case_compare. }
  cbn [skip_int_space]. rewrite Hsp.
  destruct (N.eqb_spec c 43); [lia|]. destruct (N.eqb_spec c 45); [lia|].
  rewrite (int_digits_numeral (c :: s) 0 false Hs Hne).
  f_equal. lia.
Qed.

Lemma numeral_value_last s c :
  numeral_value (s ++ [c]) = (10 * numeral_value s + (Z.of_N c - 48))%Z.
Proof. unfold numeral_value. by rewrite fold_left_app. Qed.

(** A delay written as a bare number of two or more digits loses its last
    digit: it is read as a tenth of the minutes written, rounded down. *)
Lemma parse_delay_numeral s c :
  Forall is_digit s -> s <> [] -> is_digit c ->
  py_int (s ++ [c]) = Ok (numeral_value (s ++ [c]))
  /\ parse_delay (s ++ [c]) = Ok (numeral_value (s ++ [c]) / 10 * 60)%Z.
Proof.
  intros Hs Hne Hc. split.
  - apply py_int_numeral; [|by destruct s].
    apply Forall_app. split; [done|]. by constructor.
  - rewrite (parse_delay_no_unit s c (numeral_value s)).
    + rewrite numeral_value_last. do 2 f_equal.
      destruct Hc as [Hlo Hhi].
      rewrite Z.mul_comm, Z.div_add_l by lia.
      rewrite Z.div_small by lia. lia.
    + by apply py_int_numeral.
    + rewrite (digit_value_digit c Hc). by eexists.
Qed.

(** A delay of a single digit raises: nothing is left for [int]. *)
Lemma parse_delay_one_digit c :
  is_digit c -> parse_delay [c] = Raise (InvalidLiteral []).
Proof.
  intros Hc. change [c] with ([] ++ [c]). by rewrite parse_delay_last.
Qed.

(** C3: the delay "30" is read as 3 times 60 seconds, three minutes and not
    thirty, because the last character is always taken off as the unit; a
    one-digit delay such as "5" leaves nothing to convert and int raises.
    With the unit written, "30m" is 1800 seconds. *)
Theorem parse_delay_bare_number :
  parse_delay (lit "30") = Ok 180%Z
  /\ parse_delay (lit "30") <> Ok (30 * 60)%Z
  /\ parse_delay (lit "5") = Raise (InvalidLiteral [])
  /\ parse_delay (lit "30m") = Ok 1800%Z.
Proof.
  split; [reflexivity|]. split; [vm_compute; congruence|]. by split.
Qed.

(** * Further properties *)

(** ** The codec *)

Lemma from_string_body_roundtrip t :
  roundtrip_safe t -> from_string_body (to_string t) = Ok t.
Proof.
  intros (Hh & Ht & Hd).
  rewrite (from_string_body_to_string t Hh Ht (plain_due_keeps_title _ Hd)).
  rewrite (plain_due_read_back _ Hd). by destruct t.
Qed.

Lemma from_string_Some line t out :
  from_string line = (Some t, out) -> from_string_body line = Ok t /\ out = [].
Proof.
  unfold from_string. destruct (from_string_body line); [|done].
  by intros [= -> <-].
Qed.

(** X1: whatever line it is given, a record that from_string returns has
    fields the format can carry: no '|' in created_at, priority and
    category, a title without white space at its ends and without a due
    token, and a due date that is unset or non-empty and free of white
    space.  No diagnostic is printed for it. *)
Theorem from_string_canonical (line : str) (t : Task) (out : list event) :
  from_string line = (Some t, out) -> roundtrip_safe t /\ out = [].
Proof.
  intros [Hb ->]%from_string_Some. split; [|done].
  by apply (from_string_body_safe line).
Qed.

Lemma from_string_canonical_witness :
  from_string (lit "x|2025| a |b| t due:x y  ")
  = (Some (mkTask (lit "t") (Some (lit "x")) (lit " a ") (lit "b") false
             (lit "2025")), [])
  /\ roundtrip_safe (mkTask (lit "t") (Some (lit "x")) (lit " a ") (lit "b") false
                       (lit "2025")).
Proof.
  assert (from_string (lit "x|2025| a |b| t due:x y  ")
          = (Some (mkTask (lit "t") (Some (lit "x")) (lit " a ") (lit "b") false
                     (lit "2025")), [])) as H by (vm_compute; reflexivity).
  split; [exact H|]. exact (proj1 (from_string_canonical _ _ _ H)).
Defined.

(** X2: a record read from any line is a fixed point of the codec: encoding
    it and decoding the result gives the same record, without diagnostic. *)
Theorem decoded_record_reencodes (line : str) (t : Task) (out : list event) :
  from_string line = (Some t, out) -> from_string (to_string t) = (Some t, []).
Proof.
  intros [Hb _]%from_string_Some. unfold from_string.
  by rewrite (from_string_body_roundtrip t (from_string_body_safe line t Hb)).
Qed.

Lemma decoded_record_reencodes_witness :
  from_string (lit "x|2025| a |b| t due:x y  ")
  = (Some (mkTask (lit "t") (Some (lit "x")) (lit " a ") (lit "b") false
             (lit "2025")), [])
  /\ from_string (to_string (mkTask (lit "t") (Some (lit "x")) (lit " a ") (lit "b")
                               false (lit "2025")))
     = (Some (mkTask (lit "t") (Some (lit "x")) (lit " a ") (lit "b") false
                (lit "2025")), []).
Proof.
  assert (from_string (lit "x|2025| a |b| t due:x y  ")
          = (Some (mkTask (lit "t") (Some (lit "x")) (lit " a ") (lit "b") false
                     (lit "2025")), [])) as H by (vm_compute; reflexivity).
  split; [exact H|]. exact (decoded_record_reencodes _ _ _ H).
Defined.

(** X3: on the records the format can carry the encoding is injective:
    two different records never share a line. *)
Theorem to_string_distinct (t1 t2 : Task) :
  roundtrip_safe t1 -> roundtrip_safe t2 -> t1 <> t2 ->
  to_string t1 <> to_string t2.
Proof.
  intros H1 H2 Hne Heq. apply Hne.
  pose proof (from_string_body_roundtrip t1 H1) as E1.
  pose proof (from_string_body_roundtrip t2 H2) as E2.
  rewrite Heq in E1. congruence.
Qed.

Lemma to_string_distinct_witness :
  roundtrip_safe buy_milk /\ roundtrip_safe paint /\ buy_milk <> paint
  /\ to_string buy_milk <> to_string paint.
Proof.
  assert (roundtrip_safe buy_milk) as H1 by (repeat split; compute_done).
  assert (roundtrip_safe paint) as H2 by (repeat split; compute_done).
  assert (buy_milk <> paint) as H3 by (vm_compute; congruence).
  split; [exact H1|]. split; [exact H2|]. split; [exact H3|].
  exact (to_string_distinct _ _ H1 H2 H3).
Defined.

(** A split at a separator is the splits of the two sides, one after the
    other. *)
Lemma split_app sep a s :
  split sep (a ++ sep :: s) = split sep a ++ split sep s.
Proof.
  induction a as [|c a IH]; simpl.
  - by rewrite N.eqb_refl.
  - rewrite IH. destruct (c =? sep); [done|].
    pose proof (split_nonempty sep a). by destruct (split sep a).
Qed.

Lemma split_length sep s : (1 <= length (split sep s))%nat.
Proof. pose proof (split_nonempty sep s). destruct (split sep s); simpl; [done|lia]. Qed.

Lemma split_mark t : split bar (completed_mark t) = [completed_mark t].
Proof. unfold completed_mark. by destruct (completed t). Qed.

(** Stripping an encoded line touches nothing before the title. *)
Lemma strip_to_string_header t :
  strip (to_string t)
  = completed_mark t ++ bar :: created_at t ++ bar :: priority t ++ bar
      :: category t ++ bar :: rstrip (title t ++ due_str t).
Proof.
  unfold strip.
  assert (lstrip (to_string t) = to_string t) as ->.
  { unfold to_string, completed_mark. by destruct (completed t). }
  rewrite to_string_shape.
  assert (is_space bar = false) as Hbar by done.
  rewrite rstrip_app_keep by (by rewrite rstrip_cons_nonspace).
  rewrite rstrip_cons_nonspace by done. by rewrite <- !app_assoc.
Qed.

(** X4: the encoding of any record at all is a line that from_string
    accepts: it has at least five fields, so decoding returns a record and
    prints nothing, and the completed flag always comes back as it was. *)
Theorem to_string_always_decodes (t : Task) :
  (5 <= n_fields (to_string t))%nat
  /\ exists t', from_string (to_string t) = (Some t', [])
                /\ completed t' = completed t.
Proof.
  assert (exists c p k parts,
            split bar (strip (to_string t))
            = completed_mark t :: c :: p :: k :: parts /\ parts <> [])
    as (c & p & k & parts & Hsplit & Hparts).
  { rewrite strip_to_string_header, !split_app, split_mark.
    pose proof (split_length bar (created_at t)).
    pose proof (split_length bar (priority t)).
    pose proof (split_length bar (category t)).
    pose proof (split_length bar (rstrip (title t ++ due_str t))).
    destruct (split bar (created_at t) ++ split bar (priority t)
              ++ split bar (category t)
              ++ split bar (rstrip (title t ++ due_str t)))
      as [|c [|p [|k [|x parts]]]] eqn:E;
      apply (f_equal length) in E; rewrite !length_app in E; simpl in E;
      try lia.
    by exists c, p, k, (x :: parts). }
  split.
  - unfold n_fields. rewrite Hsplit. destruct parts; [done|]. simpl. lia.
  - unfold from_string, from_string_body. rewrite Hsplit.
    destruct (re_search_due (join [bar] parts)) as [[start g]|]; simpl;
      eexists; (split; [reflexivity|]); simpl; apply mark_is_plus.
Qed.

(** ** Saving and loading *)

Lemma rstrip_all_nonspace s :
  Forall (fun c => is_space c = false) s -> rstrip s = s.
Proof.
  induction 1 as [|c s Hc _ IH]; simpl; [done|].
  rewrite IH, Hc. by destruct s.
Qed.

Lemma strip_to_string_safe t : roundtrip_safe t -> strip (to_string t) = to_string t.
Proof.
  intros (_ & [Hs _] & Hd).
  rewrite (strip_to_string t Hs (plain_due_keeps_title _ Hd)).
  f_equal. destruct t as [ttl [d|] p k c s]; simpl in *; [|done].
  destruct Hd as [_ Hd]. by rewrite (rstrip_all_nonspace d Hd).
Qed.

Lemma lstrip_app_space x c :
  is_space c = true ->
  lstrip (x ++ [c]) = match lstrip x with [] => [] | l => l ++ [c] end.
Proof.
  intros Hc. induction x as [|a x IH]; simpl; [by rewrite Hc|].
  by destruct (is_space a).
Qed.

(** A white space character at the end of a line does not survive strip. *)
Lemma strip_line_end x c : is_space c = true -> strip (x ++ [c]) = strip x.
Proof.
  intros Hc. unfold strip. rewrite (lstrip_app_space x c Hc).
  destruct (lstrip x) as [|a l]; [done|].
  by rewrite (rstrip_app_space (a :: l) c Hc).
Qed.

Lemma to_string_nonempty t : to_string t <> [].
Proof. unfold to_string, completed_mark. by destruct (completed t). Qed.

(** A stored line is read back as the record it was written from. *)
Lemma from_string_stored_line t :
  roundtrip_safe t ->
  strip (to_string t ++ [newline]) = to_string t
  /\ from_string (to_string t ++ [newline]) = (Some t, []).
Proof.
  intros Hsafe.
  assert (strip (to_string t ++ [newline]) = to_string t) as Hline
    by (rewrite strip_line_end by done; by apply strip_to_string_safe).
  split; [done|]. destruct Hsafe as (Hh & Ht & Hd). unfold from_string.
  rewrite (from_string_body_of t _ Hh Ht (plain_due_keeps_title _ Hd) Hline).
  rewrite (plain_due_read_back _ Hd). by destruct t.
Qed.

Lemma universal_newlines_id s : 13 ∉ s -> universal_newlines s = s.
Proof.
  induction s as [|c s IH]; [done|]. intros [Hc Hs]%not_elem_of_cons.
  simpl. destruct (N.eqb_spec c 13); [done|]. by rewrite IH.
Qed.

Lemma lines_of_line l s :
  newline ∉ l -> lines_of (l ++ newline :: s) = (l ++ [newline]) :: lines_of s.
Proof.
  induction l as [|c l IH]; [done|]. intros [Hc Hl]%not_elem_of_cons.
  simpl. rewrite (IH Hl). by destruct (N.eqb_spec c newline).
Qed.

Lemma serialize_cons t ts :
  serialize (t :: ts) = to_string t ++ newline :: serialize ts.
Proof. unfold serialize. simpl. by rewrite <- app_assoc. Qed.

Lemma lines_of_serialize ts :
  Forall single_line ts ->
  lines_of (serialize ts) = (fun t => to_string t ++ [newline]) <$> ts.
Proof.
  induction 1 as [|t ts [Hn _] _ IH]; [done|].
  by rewrite serialize_cons, (lines_of_line _ _ Hn), IH.
Qed.

Lemma serialize_no_return ts : Forall single_line ts -> 13 ∉ serialize ts.
Proof.
  induction 1 as [|t ts [_ Hr] _ IH]; [apply not_elem_of_nil|].
  rewrite serialize_cons. rewrite elem_of_app, elem_of_cons.
  intros [?|[?|?]]; done.
Qed.

Lemma load_loop_stored ts acc :
  Forall roundtrip_safe ts ->
  load_loop ((fun t => to_string t ++ [newline]) <$> ts) acc = (acc ++ ts, []).
Proof.
  intros Hall. revert acc. induction Hall as [|t ts Ht _ IH]; intros acc.
  - by rewrite app_nil_r.
  - cbn [fmap list_fmap load_loop].
    destruct (from_string_stored_line t Ht) as [-> ->].
    pose proof (to_string_nonempty t). destruct (to_string t) eqn:E; [done|].
    rewrite IH. by rewrite <- app_assoc.
Qed.

(** X5: a sequence of records that the format can carry and whose fields
    hold no line break is read back from its saved text exactly, in order
    and without diagnostics. *)
Theorem load_saved_tasks (ts : list Task) :
  Forall storable ts -> load_tasks (serialize ts) = (ts, []).
Proof.
  intros Hall.
  assert (Forall roundtrip_safe ts) as Hsafe
    by (eapply Forall_impl; [|exact Hall]; by intros ? [? ?]).
  assert (Forall single_line ts) as Hline
    by (eapply Forall_impl; [|exact Hall]; by intros ? [? ?]).
  unfold load_tasks.
  rewrite (universal_newlines_id _ (serialize_no_return ts Hline)).
  rewrite (lines_of_serialize ts Hline). by rewrite load_loop_stored.
Qed.

Lemma load_saved_tasks_witness :
  Forall storable [paint; buy_milk]
  /\ load_tasks (serialize [paint; buy_milk]) = ([paint; buy_milk], []).
Proof.
  assert (Forall storable [paint; buy_milk]) as H
    by (repeat constructor; compute_done).
  split; [exact H|]. exact (load_saved_tasks _ H).
Defined.

(** *** Where the characters of a decoded record come from *)

Lemma lstrip_subseteq s : lstrip s ⊆ s.
Proof.
  destruct (lstrip_suffix s) as [ws Hs]. intros c Hc.
  rewrite Hs. apply elem_of_app. by right.
Qed.

Lemma rstrip_subseteq s : rstrip s ⊆ s.
Proof.
  destruct (rstrip_prefix s) as [ws Hs]. intros c Hc.
  rewrite Hs. apply elem_of_app. by left.
Qed.

Lemma strip_subseteq s : strip s ⊆ s.
Proof. intros c Hc. by apply lstrip_subseteq, rstrip_subseteq. Qed.

Lemma split_subseteq sep s f : f ∈ split sep s -> f ⊆ s.
Proof.
  revert f. induction s as [|c s IH]; simpl; intros f Hf.
  - apply list_elem_of_singleton in Hf as ->. done.
  - destruct (c =? sep).
    + apply elem_of_cons in Hf as [->|Hf]; [by intros ? ?%elem_of_nil|].
      intros x Hx. right. by apply (IH f).
    + destruct (split sep s) as [|g gs].
      * apply list_elem_of_singleton in Hf as ->. intros x Hx.
        apply list_elem_of_singleton in Hx as ->. by left.
      * apply elem_of_cons in Hf as [->|Hf].
        -- intros x [->|Hx]%elem_of_cons; [by left|].
           right. apply (IH g); [by left|done].
        -- intros x Hx. right. apply (IH f); [by right|done].
Qed.

Lemma elem_of_join sep parts c :
  c ∈ join [sep] parts -> c = sep \/ exists f, f ∈ parts /\ c ∈ f.
Proof.
  induction parts as [|p ps IH]; [by intros ?%elem_of_nil|].
  destruct ps as [|p' ps].
  - simpl. intros Hc. right. exists p. split; [by left|done].
  - change (join [sep] (p :: p' :: ps)) with (p ++ sep :: join [sep] (p' :: ps)).
    rewrite elem_of_app, elem_of_cons. intros [Hc|[->|Hc]].
    + right. exists p. split; [by left|done].
    + by left.
    + destruct (IH Hc) as [->|(f & Hf & Hcf)]; [by left|].
      right. exists f. split; [by right|done].
Qed.

Lemma nonspace_run_subseteq s : nonspace_run s ⊆ s.
Proof.
  induction s as [|a s IH]; simpl; [done|].
  destruct (is_space a); [by intros ? ?%elem_of_nil|].
  intros x [->|Hx]%elem_of_cons; [by left|]. right. by apply IH.
Qed.

Lemma strip_prefix_subseteq p s r : strip_prefix p s = Some r -> r ⊆ s.
Proof.
  revert s. induction p as [|a p IH]; intros s; simpl.
  - by intros [= ->].
  - destruct s as [|b s]; [done|]. destruct (a =? b); [|done].
    intros H x Hx. right. by apply (IH s).
Qed.

Lemma match_due_here_subseteq s g : match_due_here s = Some g -> g ⊆ s.
Proof.
  unfold match_due_here.
  destruct (strip_prefix (lit "due:") s) as [r|] eqn:E; [|done].
  pose proof (nonspace_run_subseteq r) as Hr.
  destruct (nonspace_run r) as [|a l]; [done|]. intros [= <-] x Hx.
  by apply (strip_prefix_subseteq _ _ _ E), Hr.
Qed.

Lemma search_due_from_subseteq i s start g :
  search_due_from i s = Some (start, g) -> g ⊆ s.
Proof.
  revert i. induction s as [|a s IH]; intros i; [done|].
  cbn [search_due_from]. destruct (match_due_here (a :: s)) eqn:E.
  - intros [= _ <-]. by apply match_due_here_subseteq.
  - intros H x Hx. right. by apply (IH _ H).
Qed.

Lemma written_chars l :
  Forall (fun x => x ∈ lit "+-| due:") l -> l ⊆ lit "+-| due:".
Proof.
  induction 1 as [|x l Hx _ IH]; intros c; [by intros ?%elem_of_nil|].
  intros [->|?]%elem_of_cons; auto.
Qed.

(** The characters of an encoded line are those the encoder writes and
    those of the fields. *)
Lemma to_string_chars t c :
  c ∈ to_string t ->
  c ∈ lit "+-| due:" \/ c ∈ created_at t \/ c ∈ priority t \/ c ∈ category t
  \/ c ∈ title t \/ exists d, due_date t = Some d /\ c ∈ d.
Proof.
  unfold to_string. rewrite !elem_of_app, !list_elem_of_singleton.
  assert (completed_mark t ⊆ lit "+-| due:") as Hmark
    by (unfold completed_mark; destruct (completed t);
        apply written_chars; compute_done).
  assert (c = bar -> c ∈ lit "+-| due:") as Hbar by (intros ->; compute_done).
  intros [?|[?|[?|[?|[?|[?|[?|[?|[?|Hdue]]]]]]]]]; auto 10.
  unfold due_str in Hdue. destruct (due_date t) as [[|d0 d]|];
    try (by apply elem_of_nil in Hdue). cbn [truthy] in Hdue.
  apply elem_of_app in Hdue as [Hdue|Hdue].
  - left. revert Hdue. apply written_chars. compute_done.
  - do 5 right. by eexists.
Qed.

(** The fields of a decoded record are made of characters of the stripped
    line; the title may also hold the '|' that rejoins its pieces. *)
Lemma decoded_fields_chars line t :
  from_string_body line = Ok t ->
  created_at t ⊆ strip line /\ priority t ⊆ strip line
  /\ category t ⊆ strip line
  /\ (forall c, c ∈ title t -> c = bar \/ c ∈ strip line)
  /\ (forall d c, due_date t = Some d -> c ∈ d -> c = bar \/ c ∈ strip line).
Proof.
  unfold from_string_body.
  pose proof (split_subseteq bar (strip line)) as Hsub.
  destruct (split bar (strip line)) as [|m [|cr [|p [|k parts]]]]; try done.
  assert (forall x, x ∈ join [bar] parts -> x = bar \/ x ∈ strip line) as Hjoin.
  { intros x [->|(f & Hf & Hx)]%elem_of_join; [by left|].
    right. apply (Hsub f); [|done]. by do 4 right. }
  assert (cr ⊆ strip line) as Hcr by (apply Hsub; right; by left).
  assert (p ⊆ strip line) as Hp by (apply Hsub; do 2 right; by left).
  assert (k ⊆ strip line) as Hk by (apply Hsub; do 3 right; by left).
  destruct (re_search_due (join [bar] parts)) as [[start g]|] eqn:E;
    intros [= <-]; simpl; repeat (split; [done|]); split.
  - intros c Hc. apply Hjoin. apply (subseteq_take start).
    by apply strip_subseteq.
  - intros d c [= <-] Hc. apply Hjoin.
    by apply (search_due_from_subseteq _ _ _ _ E).
  - intros c Hc. apply Hjoin. by apply strip_subseteq.
  - done.
Qed.

(** A character that is neither in the stripped line nor written by the
    encoder is not in the encoding of the decoded record. *)
Lemma decoded_to_string_chars line t c :
  from_string_body line = Ok t -> c ∈ to_string t ->
  c ∈ strip line \/ c ∈ lit "+-| due:".
Proof.
  intros (Hcr & Hp & Hk & Ht & Hd)%decoded_fields_chars Hc.
  assert (c = bar -> c ∈ lit "+-| due:") as Hbar by (intros ->; compute_done).
  destruct (to_string_chars t c Hc) as [?|[?|[?|[?|[Hx|(d & Hdd & Hx)]]]]]; auto.
  - destruct (Ht c Hx); auto.
  - destruct (Hd d c Hdd Hx); auto.
Qed.

(** *** The lines of a file *)

Lemma universal_newlines_no_return s : 13 ∉ universal_newlines s.
Proof.
  assert (forall n s, (length s <= n)%nat -> 13 ∉ universal_newlines s) as H.
  { clear s. induction n as [|n IH]; intros [|c s] Hlen; simpl in *;
      try apply not_elem_of_nil; [lia|].
    destruct (N.eqb_spec c 13) as [->|Hc].
    - destruct s as [|d s]; [compute_done|].
      destruct (d =? 10); apply not_elem_of_cons; (split; [done|]);
        apply IH; simpl in *; lia.
    - apply not_elem_of_cons. split; [congruence|]. apply IH. lia. }
  by apply (H (length s)).
Qed.

(** A line of a file holds its newline, if any, at the end, and is made of
    characters of the file. *)
Lemma lines_of_elem s line :
  line ∈ lines_of s ->
  exists body, (line = body ++ [newline] \/ line = body)
               /\ (newline ∉ body) /\ body ⊆ s.
Proof.
  revert line. induction s as [|c s IH]; intros line; simpl.
  - by intros ?%elem_of_nil.
  - destruct (N.eqb_spec c newline) as [->|Hc].
    + intros [->|Hl]%elem_of_cons.
      * exists []. split; [by left|]. split; [apply not_elem_of_nil|].
        by intros ? ?%elem_of_nil.
      * destruct (IH line Hl) as (body & Hb & Hn & Hs).
        exists body. split; [done|]. split; [done|]. intros x Hx. right. by apply Hs.
    + destruct (lines_of s) as [|l ls] eqn:E.
      * intros ->%list_elem_of_singleton. exists [c]. split; [by right|].
        split; [apply not_elem_of_cons; split; [congruence|apply not_elem_of_nil]|].
        intros x ->%list_elem_of_singleton. by left.
      * intros [->|Hl]%elem_of_cons.
        -- destruct (IH l) as (body & Hb & Hn & Hs); [by left|].
           exists (c :: body). split; [destruct Hb as [->| ->]; [by left|by right]|].
           split; [apply not_elem_of_cons; split; [congruence|done]|].
           intros x [->|Hx]%elem_of_cons; [by left|]. right. by apply Hs.
        -- destruct (IH line) as (body & Hb & Hn & Hs); [by right|].
           exists body. split; [done|]. split; [done|].
           intros x Hx. right. by apply Hs.
Qed.

(** A record decoded from a line of a file can be stored again. *)
Lemma file_line_storable file line t :
  line ∈ lines_of (universal_newlines file) ->
  from_string line = (Some t, []) -> storable t.
Proof.
  intros Hline [Hb _]%from_string_Some.
  split; [by apply (from_string_body_safe line)|].
  destruct (lines_of_elem _ _ Hline) as (body & Hshape & Hn & Hsub).
  assert (strip line ⊆ body) as Hstrip.
  { destruct Hshape as [-> | ->]; [|apply strip_subseteq].
    rewrite strip_line_end by done. apply strip_subseteq. }
  split; intros Hc;
    destruct (decoded_to_string_chars line t _ Hb Hc) as [Hin|Hin];
    try (revert Hin; compute_done).
  - by apply Hn, Hstrip.
  - by apply (universal_newlines_no_return file), Hsub, Hstrip.
Qed.

Lemma Forall2_Forall_right {A B} (R : A -> B -> Prop) (Q : B -> Prop) l k :
  Forall2 R l k -> (forall x y, x ∈ l -> R x y -> Q y) -> Forall Q k.
Proof.
  induction 1 as [|x y l k Hxy _ IH]; intros HQ; constructor.
  - apply (HQ x); [by left|done].
  - apply IH. intros x' y' Hx'. apply HQ. by right.
Qed.

Lemma loaded_tasks_storable file : Forall storable (fst (load_tasks file)).
Proof.
  unfold load_tasks.
  destruct (load_loop_spec (lines_of (universal_newlines file)) [])
    as (ts & -> & Hdec & _). simpl.
  apply (Forall2_Forall_right _ _ _ _ Hdec). intros line t Hline Ht.
  apply list_elem_of_filter in Hline as [_ Hline].
  by apply (file_line_storable file line).
Qed.

(** X6: whatever the file holds, the records load_tasks reads from it are
    read back unchanged, in order and without diagnostics, from the text
    save_tasks writes for them: one rewrite makes the file clean. *)
Theorem load_save_load (file : str) :
  load_tasks (serialize (fst (load_tasks file))) = (fst (load_tasks file), []).
Proof. apply load_saved_tasks, loaded_tasks_storable. Qed.

(** ** Completing, again *)

Lemma complete_task_cases q p :
  ((1 <= p <= Z.of_nat (length (tasks q)))%Z
   /\ exists t,
        tasks q !! Z.to_nat (p - 1) = Some t
        /\ complete_task p q
           = (Ok (mkQuickDo (alter set_completed (Z.to_nat (p - 1)) (tasks q))
                    (serialize (alter set_completed (Z.to_nat (p - 1)) (tasks q)))),
              [WriteTasksFile
                 (serialize (alter set_completed (Z.to_nat (p - 1)) (tasks q)));
               Print (MsgCompleted (title t))]))
  \/ ((p < 1 \/ Z.of_nat (length (tasks q)) < p)%Z
      /\ complete_task p q = (Ok q, [Print MsgInvalidNumber])).
Proof.
  unfold complete_task.
  destruct (Z.leb_spec 1 p), (Z.leb_spec p (Z.of_nat (length (tasks q))));
    simpl; try (right; split; [lia|done]).
  left. split; [lia|].
  destruct (lookup_lt_is_Some_2 (tasks q) (Z.to_nat (p - 1))) as [t Ht]; [lia|].
  exists t. by rewrite Ht.
Qed.

Lemma set_completed_idem t : set_completed (set_completed t) = set_completed t.
Proof. done. Qed.

Lemma alter_set_completed_idem (i : nat) (ts : list Task) :
  alter set_completed i (alter set_completed i ts) = alter set_completed i ts.
Proof.
  revert i. induction ts as [|t ts IH]; intros [|i]; simpl; try done.
  f_equal. apply IH.
Qed.

Lemma alter_set_completed_comm (i j : nat) (ts : list Task) :
  alter set_completed i (alter set_completed j ts)
  = alter set_completed j (alter set_completed i ts).
Proof.
  revert i j. induction ts as [|t ts IH]; intros [|i] [|j]; simpl; try done.
  f_equal. apply IH.
Qed.

(** X7: completing is idempotent: repeating a complete_task call on the
    store it returned gives that same store and the same output again,
    for a valid position and for an invalid one. *)
Theorem complete_twice (q q1 : QuickDo) (p : Z) (out : list event) :
  complete_task p q = (Ok q1, out) -> complete_task p q1 = (Ok q1, out).
Proof.
  destruct (complete_task_cases q p) as [(Hp & t & Ht & E)|(Hp & E)];
    rewrite E; intros [= <- <-]; [|exact E].
  destruct (complete_task_cases
              (mkQuickDo (alter set_completed (Z.to_nat (p - 1)) (tasks q))
                 (serialize (alter set_completed (Z.to_nat (p - 1)) (tasks q)))) p)
    as [(_ & t' & Ht' & ->)|(Hp' & _)]; simpl in *.
  - rewrite list_lookup_alter_eq, Ht in Ht'. injection Ht' as <-.
    by rewrite alter_set_completed_idem.
  - rewrite length_alter in Hp'. lia.
Qed.

Lemma complete_twice_witness :
  exists q1 out,
    complete_task 2 sample_store = (Ok q1, out)
    /\ complete_task 2 q1 = (Ok q1, out).
Proof.
  eexists _, _.
  assert (complete_task 2 sample_store
          = (Ok (mkQuickDo [paint; set_completed buy_milk]
                   (serialize [paint; set_completed buy_milk])),
             [WriteTasksFile (serialize [paint; set_completed buy_milk]);
              Print (MsgCompleted (title buy_milk))])) as H by reflexivity.
  split; [exact H|]. exact (complete_twice _ _ _ _ H).
Defined.

(** X8: the order of two completions does not matter for the store: with
    either order the same records end up completed and the same text is in
    the file. *)
Theorem complete_order (q qa qb : QuickDo) (p1 p2 : Z) :
  fst (complete_task p1 q) = Ok qa -> fst (complete_task p2 q) = Ok qb ->
  fst (complete_task p2 qa) = fst (complete_task p1 qb).
Proof.
  destruct (complete_task_cases q p1) as [(H1 & t1 & Ht1 & ->)|(H1 & ->)];
    destruct (complete_task_cases q p2) as [(H2 & t2 & Ht2 & ->)|(H2 & ->)];
    simpl; intros [= <-] [= <-].
  - destruct (complete_task_cases
                (mkQuickDo (alter set_completed (Z.to_nat (p1 - 1)) (tasks q))
                   (serialize (alter set_completed (Z.to_nat (p1 - 1)) (tasks q)))) p2)
      as [(_ & ? & _ & ->)|(H & _)]; [|simpl in H; rewrite length_alter in H; lia].
    destruct (complete_task_cases
                (mkQuickDo (alter set_completed (Z.to_nat (p2 - 1)) (tasks q))
                   (serialize (alter set_completed (Z.to_nat (p2 - 1)) (tasks q)))) p1)
      as [(_ & ? & _ & ->)|(H & _)]; [|simpl in H; rewrite length_alter in H; lia].
    simpl. by rewrite alter_set_completed_comm.
  - destruct (complete_task_cases
                (mkQuickDo (alter set_completed (Z.to_nat (p1 - 1)) (tasks q))
                   (serialize (alter set_completed (Z.to_nat (p1 - 1)) (tasks q)))) p2)
      as [(H & _)|(_ & ->)]; [simpl in H; rewrite length_alter in H; lia|].
    destruct (complete_task_cases q p1) as [(_ & ? & _ & ->)|(H & _)]; [done|lia].
  - destruct (complete_task_cases
                (mkQuickDo (alter set_completed (Z.to_nat (p2 - 1)) (tasks q))
                   (serialize (alter set_completed (Z.to_nat (p2 - 1)) (tasks q)))) p1)
      as [(H & _)|(_ & ->)]; [simpl in H; rewrite length_alter in H; lia|].
    destruct (complete_task_cases q p2) as [(_ & ? & _ & ->)|(H & _)]; [done|lia].
  - destruct (complete_task_cases q p1) as [(H & _)|(_ & ->)]; [lia|].
    by destruct (complete_task_cases q p2) as [(H & _)|(_ & ->)]; [lia|].
Qed.

Lemma complete_order_witness :
  exists qa qb,
    fst (complete_task 1 dated_store) = Ok qa
    /\ fst (complete_task 3 dated_store) = Ok qb
    /\ fst (complete_task 3 qa) = fst (complete_task 1 qb).
Proof.
  eexists _, _.
  assert (fst (complete_task 1 dated_store)
          = Ok (mkQuickDo [set_completed two_days_ago; five_days_ago; one_hour_ago]
                  (serialize [set_completed two_days_ago; five_days_ago; one_hour_ago])))
    as Ha by reflexivity.
  assert (fst (complete_task 3 dated_store)
          = Ok (mkQuickDo [two_days_ago; five_days_ago; set_completed one_hour_ago]
                  (serialize [two_days_ago; five_days_ago; set_completed one_hour_ago])))
    as Hb by reflexivity.
  split; [exact Ha|]. split; [exact Hb|].
  exact (complete_order _ _ _ _ _ Ha Hb).
Defined.

(** ** Listing, again *)

Lemma imap_shift (i : Z) (ts : list Task) :
  imap ((fun k t => ((Z.of_nat k + i)%Z, t)) ∘ S) ts
  = imap (fun k t => ((Z.of_nat k + (i + 1))%Z, t)) ts.
Proof. apply imap_ext. intros; simpl; f_equal; lia. Qed.

Lemma list_loop_all i ts :
  list_loop true i ts = row <$> imap (fun k t => ((Z.of_nat k + i)%Z, t)) ts.
Proof.
  revert i. induction ts as [|t ts IH]; intros i; [done|].
  rewrite imap_cons, imap_shift. cbn [list_loop].
  rewrite andb_false_r, (IH (i + 1)%Z). done.
Qed.

(** X9: with completed records shown, the store prints one row for every
    record, completed or not, in order and with the same numbering from 1;
    only an empty store prints the no-tasks message instead. *)
Theorem list_all_rows (q : QuickDo) :
  list_tasks true q
  = match tasks q with
    | [] => [Print MsgNoTasks]
    | _ :: _ => Print MsgListHeader :: (row <$> positions (tasks q))
    end
  /\ (tasks q <> [] -> length (list_tasks true q) = S (length (tasks q))).
Proof.
  assert (list_tasks true q
          = match tasks q with
            | [] => [Print MsgNoTasks]
            | _ :: _ => Print MsgListHeader :: (row <$> positions (tasks q))
            end) as H.
  { unfold list_tasks, positions. destruct (tasks q) as [|t ts]; [done|].
    by rewrite list_loop_all. }
  split; [exact H|]. intros Hne. rewrite H.
  destruct (tasks q) as [|t ts] eqn:E; [done|].
  unfold positions. cbn [length]. by rewrite length_fmap, length_imap.
Qed.

Lemma list_all_rows_witness :
  tasks sample_store <> []
  /\ length (list_tasks true sample_store) = S (length (tasks sample_store)).
Proof.
  assert (tasks sample_store <> []) as H by done.
  split; [exact H|]. exact (proj2 (list_all_rows sample_store) H).
Defined.

Lemma filter_agree {A} (P Q : A -> Prop) `{!forall x, Decision (P x)}
    `{!forall x, Decision (Q x)} (l : list A) :
  Forall (fun x => P x <-> Q x) l -> filter P l = filter Q l.
Proof.
  induction 1 as [|x l Hx _ IH]; [done|].
  rewrite !filter_cons, IH. by repeat case_decide; try tauto.
Qed.

Lemma positions_from_ge (i : Z) (ts : list Task) :
  Forall (fun it => (i <= fst it)%Z) (imap (fun k t => ((Z.of_nat k + i)%Z, t)) ts).
Proof.
  revert i. induction ts as [|t ts IH]; intros i; [done|].
  rewrite imap_cons, imap_shift. constructor; [simpl; lia|].
  eapply Forall_impl; [|apply (IH (i + 1)%Z)]. simpl. intros; lia.
Qed.

(** The active rows after one record is completed. *)
Lemma active_after_alter (i : Z) (j : nat) (ts : list Task) :
  filter (fun it => completed (snd it) = false)
    (imap (fun k t => ((Z.of_nat k + i)%Z, t)) (alter set_completed j ts))
  = filter (fun it => completed (snd it) = false /\ fst it <> (Z.of_nat j + i)%Z)
      (imap (fun k t => ((Z.of_nat k + i)%Z, t)) ts).
Proof.
  revert i j. induction ts as [|t ts IH]; intros i [|j]; [done|done| |].
  - cbn [alter list_alter]. rewrite !imap_cons, !imap_shift, !filter_cons.
    rewrite decide_False by done.
    rewrite decide_False by (simpl; intros [_ H]; lia).
    apply filter_agree.
    eapply Forall_impl; [|apply (positions_from_ge (i + 1)%Z)].
    simpl. intros [k t'] Hk. simpl in *. split; [|tauto]. intros ?. split; [done|lia].
  - cbn [alter list_alter]. rewrite !imap_cons, !imap_shift, !filter_cons.
    rewrite (IH (i + 1)%Z j). simpl.
    replace (Z.of_nat j + (i + 1))%Z with (Z.pos (Pos.of_succ_nat j) + i)%Z by lia.
    repeat case_decide; try done; try tauto; exfalso; intuition lia.
Qed.

(** X10: after a valid complete_task the listing without completed records
    is the previous one minus the row of the completed position; every
    other active record keeps its row and its number. *)
Theorem list_after_complete (q q' : QuickDo) (p : Z) (out : list event) :
  (1 <= p <= Z.of_nat (length (tasks q)))%Z ->
  complete_task p q = (Ok q', out) ->
  list_tasks false q'
  = Print MsgListHeader
      :: (row <$> filter (fun it => completed (snd it) = false /\ fst it <> p)
                    (positions (tasks q))).
Proof.
  intros Hp. destruct (complete_task_cases q p) as [(_ & t & Ht & E)|(Hp' & _)];
    [|lia]. rewrite E. intros [= <- _].
  unfold list_tasks. cbn [tasks].
  destruct (alter set_completed (Z.to_nat (p - 1)) (tasks q)) as [|t0 ts0] eqn:Ealt.
  { apply (f_equal length) in Ealt. rewrite length_alter in Ealt.
    simpl in Ealt. lia. }
  rewrite <- Ealt, list_loop_rows, active_after_alter. unfold positions.
  by replace (Z.of_nat (Z.to_nat (p - 1)) + 1)%Z with p by lia.
Qed.

Lemma list_after_complete_witness :
  (1 <= 3 <= Z.of_nat (length (tasks dated_store)))%Z
  /\ exists q' out,
       complete_task 3 dated_store = (Ok q', out)
       /\ list_tasks false q'
          = [Print MsgListHeader; Print (task_line 2 five_days_ago)].
Proof.
  assert (1 <= 3 <= Z.of_nat (length (tasks dated_store)))%Z as Hp by (simpl; lia).
  split; [exact Hp|]. eexists _, _.
  assert (complete_task 3 dated_store
          = (Ok (mkQuickDo [two_days_ago; five_days_ago; set_completed one_hour_ago]
                   (serialize [two_days_ago; five_days_ago; set_completed one_hour_ago])),
             [WriteTasksFile
                (serialize [two_days_ago; five_days_ago; set_completed one_hour_ago]);
              Print (MsgCompleted (title one_hour_ago))])) as H by reflexivity.
  split; [exact H|]. by rewrite (list_after_complete _ _ _ _ Hp H).
Defined.

(** ** Adding *)


(** *** Writing as UTF-8 *)

Lemma encodable_elem s :
  encodable s = true <-> forall c, c ∈ s -> is_surrogate c = false.
Proof.
  unfold encodable. induction s as [|a s IH]; cbn [forallb].
  - split; [intros _ c Hc; by apply elem_of_nil in Hc|done].
  - rewrite andb_true_iff, negb_true_iff, IH. split.
    + intros [Ha Hs] c [->|Hc]%elem_of_cons; auto.
    + intros H. split; [apply H; by left|intros c Hc; apply H; by right].
Qed.

Lemma encodable_line t :
  encodable (to_string t ++ [newline]) = encodable (to_string t).
Proof.
  unfold encodable. rewrite forallb_app.
  by destruct (forallb _ (to_string t)).
Qed.

Lemma write_lines_all ts :
  Forall encodable_task ts -> write_lines ts = (true, serialize ts).
Proof.
  induction 1 as [|t ts Ht _ IH]; [done|].
  cbn [write_lines]. by rewrite encodable_line, Ht, IH, serialize_cons, <- app_assoc.
Qed.


Lemma save_tasks_utf8_tasks q : tasks (snd (fst (save_tasks_utf8 q))) = tasks q.
Proof. unfold save_tasks_utf8. by destruct (write_lines (tasks q)). Qed.

(** Where every line can be encoded the write is the one of save_tasks. *)
Lemma save_tasks_utf8_all q :
  Forall encodable_task (tasks q) ->
  save_tasks_utf8 q = (None, fst (save_tasks q), snd (save_tasks q)).
Proof. intros H. unfold save_tasks_utf8. by rewrite (write_lines_all _ H). Qed.

Lemma add_task_tasks now_str ttl due prio cat q :
  tasks (snd (fst (add_task now_str ttl due prio cat q)))
  = tasks q ++ [Task_init now_str ttl due prio cat].
Proof.
  unfold add_task, save_tasks_utf8. cbn [tasks].
  by destruct (write_lines _) as [[] data].
Qed.


Example add_to_sample_store :
  list_tasks false
    (snd (fst (add_task (lit "2025-01-10 12:00") (lit "call mum") None
                 (lit "medium") (lit "personal") sample_store)))
  = [Print MsgListHeader;
     Print (MsgTaskLine 2 (lit "-") [10071] (lit "Buy milk") (lit "[errand]")
              (lit " [2025-01-10]"));
     Print (MsgTaskLine 3 (lit "-") [9642] (lit "call mum") (lit "[personal]") [])].
Proof. reflexivity. Qed.

(** The title U+DCFF, which is what the byte 0xFF of an argument becomes. *)
Example add_lone_surrogate :
  add_task (lit "2025-01-10 12:00") [56575] None (lit "medium") (lit "personal")
    sample_store
  = (Some UnicodeEncodeError,
     mkQuickDo
       (tasks sample_store
          ++ [mkTask [56575] None (lit "medium") (lit "personal") false
                (lit "2025-01-10 12:00")])
       (lit "+|2025-01-09 08:30|medium|home|red|blue paint due:2025-01-10" ++ [newline]
        ++ lit "-|2025-01-09 08:30|high|errand|Buy milk due:2025-01-10" ++ [newline]),
     [Ev (WriteTasksFile
            (lit "+|2025-01-09 08:30|medium|home|red|blue paint due:2025-01-10" ++ [newline]
             ++ lit "-|2025-01-09 08:30|high|errand|Buy milk due:2025-01-10"
             ++ [newline]))]).
Proof. reflexivity. Qed.

(** ** Report, again *)

Lemma dict_total_set k v d :
  dict_total (dict_set k v d) = (dict_total d - dict_get k d + v)%Z.
Proof.
  induction d as [|[k' w] d IH]; simpl; [lia|].
  destruct (str_eqb_spec k' k) as [->|Hk]; simpl; [lia|]. rewrite IH. lia.
Qed.

Lemma dict_keys_set_order k v d :
  (dict_set k v d).*1
  = if bool_decide (k ∈ d.*1) then d.*1 else d.*1 ++ [k].
Proof.
  induction d as [|[k' w] d IH]; [done|]. cbn [dict_set].
  destruct (str_eqb_spec k' k) as [->|Hk]; rewrite !fmap_cons; cbn [fst].
  - by rewrite bool_decide_true by (by left).
  - rewrite IH. case_bool_decide as H1.
    + by rewrite bool_decide_true by (by right).
    + rewrite bool_decide_false; [done|].
      intros [?|?]%elem_of_cons; [congruence|done].
Qed.

Lemma first_seen_step_NoDup (l acc : list str) :
  NoDup acc ->
  NoDup (fold_left (fun acc c => if bool_decide (c ∈ acc) then acc else acc ++ [c])
           l acc).
Proof.
  revert acc. induction l as [|c l IH]; intros acc Hacc; [done|].
  simpl. apply IH. case_bool_decide; [done|].
  apply list.NoDup_app. split; [done|].
  split; [|apply NoDup_singleton].
  intros x Hx ->%list_elem_of_singleton. done.
Qed.

Section ReportOrder.
Variable strptime : str -> option datetime.

(** What the loop of report keeps: the order of the categories and the
    balance between their counts and the two counters. *)
Lemma report_loop_categories start ts a :
  Forall (parses strptime) ts ->
  exists a',
    report_loop strptime start ts a = Ok a'
    /\ (categories a').*1
       = fold_left (fun acc c => if bool_decide (c ∈ acc) then acc else acc ++ [c])
           (category <$> filter (fun t => in_window strptime start t = true) ts)
           (categories a).*1
    /\ (dict_total (categories a') - n_completed a' - n_remaining a'
        = dict_total (categories a) - n_completed a - n_remaining a)%Z.
Proof.
  intros Hall. revert a. induction Hall as [|t ts [d Hd] _ IH]; intros a.
  - by exists a.
  - cbn [report_loop]. rewrite Hd, filter_cons.
    destruct (IH (count_task start d t a)) as (a' & -> & Hk & Ht).
    exists a'. split; [done|]. rewrite Hk, Ht. clear Hk Ht IH.
    assert (in_window strptime start t = (start <=? d)%Z) as Hw
      by (unfold in_window; by rewrite Hd).
    unfold count_task. rewrite Hw.
    destruct (start <=? d)%Z; simpl.
    + rewrite dict_keys_set_order, dict_total_set. split; [done|].
      destruct (completed t); lia.
    + done.
Qed.
End ReportOrder.

(** X12: in a report for day or week over time stamps that all parse, the
    categories are listed in the order in which the records inside the
    window first show them, each category once. *)
Theorem report_category_order (strptime : str -> option datetime)
    (now : datetime) (period : str) (q : QuickDo) :
  period = lit "day" \/ period = lit "week" ->
  Forall (parses strptime) (tasks q) ->
  exists a,
    report strptime now period q = (Ok tt, report_lines period a)
    /\ (categories a).*1
       = first_seen
           (category <$> filter (fun t => in_window strptime
                                            (window_start now period) t = true)
                           (tasks q))
    /\ NoDup (categories a).*1.
Proof.
  intros Hperiod Hall. unfold report.
  rewrite (start_of_period now period Hperiod). fold (window_start now period).
  destruct (report_loop_categories strptime (window_start now period) (tasks q)
              (mkTally 0 0 []) Hall) as (a & -> & Hk & _).
  exists a. split; [done|]. split; [exact Hk|].
  rewrite Hk. apply first_seen_step_NoDup. apply list.NoDup_nil. done.
Qed.

Lemma report_category_order_witness :
  (lit "week" = lit "day" \/ lit "week" = lit "week")
  /\ Forall (parses strptime_ascii) (tasks dated_store)
  /\ exists a,
       report strptime_ascii sample_now (lit "week") dated_store
       = (Ok tt, report_lines (lit "week") a)
       /\ (categories a).*1 = [lit "home"; lit "work"].
Proof.
  assert (Forall (parses strptime_ascii) (tasks dated_store)) as Hall by all_parse.
  split; [by right|]. split; [exact Hall|].
  destruct (report_category_order strptime_ascii sample_now (lit "week")
              dated_store (or_intror eq_refl) Hall) as (a & Hrun & Hk & _).
  exists a. split; [exact Hrun|]. rewrite Hk. vm_compute. reflexivity.
Defined.

(** X13: in such a report the counts of the categories add up to the
    completed count plus the remaining count. *)
Theorem report_totals_agree (strptime : str -> option datetime)
    (now : datetime) (period : str) (q : QuickDo) :
  period = lit "day" \/ period = lit "week" ->
  Forall (parses strptime) (tasks q) ->
  exists a,
    report strptime now period q = (Ok tt, report_lines period a)
    /\ dict_total (categories a) = (n_completed a + n_remaining a)%Z.
Proof.
  intros Hperiod Hall. unfold report.
  rewrite (start_of_period now period Hperiod).
  destruct (report_loop_categories strptime
              (now - timedelta_days (window_days period))%Z (tasks q)
              (mkTally 0 0 []) Hall) as (a & -> & _ & Ht).
  exists a. split; [done|]. simpl in Ht. lia.
Qed.

Lemma report_totals_agree_witness :
  (lit "week" = lit "day" \/ lit "week" = lit "week")
  /\ Forall (parses strptime_ascii) (tasks dated_store)
  /\ exists a,
       report strptime_ascii sample_now (lit "week") dated_store
       = (Ok tt, report_lines (lit "week") a)
       /\ dict_total (categories a) = (n_completed a + n_remaining a)%Z.
Proof.
  assert (Forall (parses strptime_ascii) (tasks dated_store)) as Hall by all_parse.
  split; [by right|]. split; [exact Hall|].
  exact (report_totals_agree strptime_ascii sample_now (lit "week") dated_store
           (or_intror eq_refl) Hall).
Defined.

(** X14: for any period other than day and week the report prints the
    unsupported-period message and returns before looking at any record:
    it neither raises nor prints counts, even when time stamps do not
    parse. *)
Theorem report_unsupported_period (strptime : str -> option datetime)
    (now : datetime) (period : str) (q : QuickDo) :
  period <> lit "day" -> period <> lit "week" ->
  report strptime now period q = (Ok tt, [Print MsgUnsupportedPeriod]).
Proof.
  intros Hd Hw. unfold report, start_of.
  destruct (str_eqb_spec period (lit "week")); [done|].
  by destruct (str_eqb_spec period (lit "day")).
Qed.

Lemma report_unsupported_period_witness :
  lit "month" <> lit "day" /\ lit "month" <> lit "week"
  /\ report strptime_ascii sample_now (lit "month") undated_store
     = (Ok tt, [Print MsgUnsupportedPeriod]).
Proof.
  assert (lit "month" <> lit "day") as Hd by (vm_compute; congruence).
  assert (lit "month" <> lit "week") as Hw by (vm_compute; congruence).
  split; [exact Hd|]. split; [exact Hw|].
  exact (report_unsupported_period strptime_ascii sample_now (lit "month")
           undated_store Hd Hw).
Defined.

Lemma count_le P Q ts :
  (forall t, P t = true -> Q t = true) -> (count P ts <= count Q ts)%Z.
Proof.
  intros H. induction ts as [|t ts IH]; simpl; [lia|].
  specialize (H t). destruct (P t), (Q t); try lia.
  all: by specialize (H eq_refl).
Qed.

Lemma in_window_earlier strptime s1 s2 t :
  (s1 <= s2)%Z -> in_window strptime s2 t = true -> in_window strptime s1 t = true.
Proof.
  unfold in_window. destruct (strptime (created_at t)); [|done].
  intros Hle H%Z.leb_le. apply Z.leb_le. lia.
Qed.

(** X15: over the same records and clock reading the week report counts at
    least what the day report counts, in the completed counter, in the
    remaining counter and in every category. *)
Theorem report_week_covers_day (strptime : str -> option datetime)
    (now : datetime) (q : QuickDo) :
  Forall (parses strptime) (tasks q) ->
  exists ad aw,
    report strptime now (lit "day") q = (Ok tt, report_lines (lit "day") ad)
    /\ report strptime now (lit "week") q = (Ok tt, report_lines (lit "week") aw)
    /\ (n_completed ad <= n_completed aw)%Z
    /\ (n_remaining ad <= n_remaining aw)%Z
    /\ forall c, (dict_get c (categories ad) <= dict_get c (categories aw))%Z.
Proof.
  intros Hall. unfold report.
  destruct (report_loop_tally strptime (now - timedelta_days 1)%Z (tasks q)
              (mkTally 0 0 []) Hall) as (ad & Hd & Hdc & Hdr & Hdg & _).
  destruct (report_loop_tally strptime (now - timedelta_days 7)%Z (tasks q)
              (mkTally 0 0 []) Hall) as (aw & Hw & Hwc & Hwr & Hwg & _).
  exists ad, aw.
  rewrite (start_of_period now (lit "day") (or_introl eq_refl)).
  rewrite (start_of_period now (lit "week") (or_intror eq_refl)).
  change (window_days (lit "day")) with 1%Z.
  change (window_days (lit "week")) with 7%Z.
  rewrite Hd, Hw. split; [done|]. split; [done|].
  assert (forall t, in_window strptime (now - timedelta_days 1) t = true ->
                    in_window strptime (now - timedelta_days 7) t = true) as Hin.
  { intros t. apply in_window_earlier. unfold timedelta_days. lia. }
  rewrite Hdc, Hwc, Hdr, Hwr. simpl.
  split; [|split].
  - apply Z.add_le_mono_l, count_le. intros t [H1 H2]%andb_prop.
    by rewrite (Hin t H1), H2.
  - apply Z.add_le_mono_l, count_le. intros t [H1 H2]%andb_prop.
    by rewrite (Hin t H1), H2.
  - intros c. rewrite Hdg, Hwg. simpl.
    apply Z.add_le_mono_l, count_le. intros t [H1 H2]%andb_prop.
    by rewrite (Hin t H1), H2.
Qed.

Lemma report_week_covers_day_witness :
  Forall (parses strptime_ascii) (tasks dated_store)
  /\ exists ad aw,
       report strptime_ascii sample_now (lit "day") dated_store
       = (Ok tt, report_lines (lit "day") ad)
       /\ report strptime_ascii sample_now (lit "week") dated_store
          = (Ok tt, report_lines (lit "week") aw)
       /\ (n_completed ad <= n_completed aw)%Z
       /\ (n_remaining ad <= n_remaining aw)%Z
       /\ forall c, (dict_get c (categories ad) <= dict_get c (categories aw))%Z.
Proof.
  assert (Forall (parses strptime_ascii) (tasks dated_store)) as Hall by all_parse.
  split; [exact Hall|].
  exact (report_week_covers_day strptime_ascii sample_now dated_store Hall).
Defined.

(** ** Reminder delays, again *)

(** X16: a delay of fewer than two characters never yields a number: the
    empty delay raises IndexError, and a single character, be it a digit or
    a unit letter, leaves the empty text to int, which raises ValueError. *)
Theorem parse_delay_too_short :
  parse_delay [] = Raise IndexOutOfRange
  /\ forall c, parse_delay [c] = Raise (InvalidLiteral []).
Proof.
  split; [done|]. intros c. change [c] with ([] ++ [c]).
  by rewrite parse_delay_last.
Qed.

(** X17: the last character of a delay selects the unit without regard to
    case: m or M minutes, h or H hours, d or D days; every other last
    character, a digit included, counts as minutes.  The number is what int
    makes of the text before it. *)
Theorem parse_delay_suffix (s : str) (c : char) (v : Z) :
  py_int s = Ok v ->
  parse_delay (s ++ [c])
  = Ok (v * (if bool_decide (c ∈ lit "hH") then 3600
             else if bool_decide (c ∈ lit "dD") then 86400
             else 60))%Z.
Proof.
  intros Hv. rewrite parse_delay_last, Hv. do 2 f_equal.
  change (lit "hH") with [104; 72]. change (lit "dD") with [100; 68].
  unfold units_get, lower.
  repeat case_bool_decide;
    repeat match goal with
           | H : _ ∈ _ :: _ |- _ => apply elem_of_cons in H as [->|H]
           | H : _ ∈ [] |- _ => by apply elem_of_nil in H
           | H : ~ (_ ∈ _ :: _) |- _ => apply not_elem_of_cons in H as [? H]
           end; try done.
  destruct (N.leb_spec 65 c), (N.leb_spec c 90); simpl; case_compare; done.
Qed.

Lemma parse_delay_suffix_witness :
  py_int (lit "-2") = Ok (-2)%Z
  /\ parse_delay (lit "-2" ++ [72]) = Ok (-7200)%Z.
Proof.
  assert (py_int (lit "-2") = Ok (-2)%Z) as H by reflexivity.
  split; [exact H|]. exact (parse_delay_suffix (lit "-2") 72 (-2) H).
Defined.

(** ** Reminders *)


(** The message U+DCFF with a clock stopped at 2025-01-10 12:00, and the
    delay '5' followed by U+DCFF on a standard output that is strict. *)
Example remind_lone_surrogate :
  remind stopped_clock sample_now (fun _ => false) [56575] (Some (lit "5m"))
    (lit "old")
  = (Some UnicodeEncodeError, lit "old", [StartThread 300 [56575]])
  /\ remind stopped_clock sample_now (fun _ => false) (lit "tea")
       (Some (lit "5" ++ [56575])) (lit "old")
     = (Some UnicodeEncodeError,
        lit "old" ++ lit "2025-01-10 12:00|tea" ++ [newline],
        [StartThread 300 (lit "tea");
         AppendRemindersFile (lit "2025-01-10 12:00|tea" ++ [newline])])
  /\ remind stopped_clock sample_now (fun _ => true) (lit "tea")
       (Some (lit "5" ++ [56575])) (lit "old")
     = (None,
        lit "old" ++ lit "2025-01-10 12:00|tea" ++ [newline],
        [StartThread 300 (lit "tea");
         AppendRemindersFile (lit "2025-01-10 12:00|tea" ++ [newline]);
         PrintReminderSet (lit "tea") (lit "5" ++ [56575])]).
Proof. repeat split. Qed.

(** ** Whole runs *)

Section Runs.
Variable strptime : str -> option datetime.
Variable strftime : datetime -> str.
Variable now : datetime.

Lemma QuickDo_init_tasks fs :
  tasks (fst (QuickDo_init fs)) = fst (load_tasks (default [] (tasks_txt fs)))
  /\ tasks_file (fst (QuickDo_init fs)) = default [] (tasks_txt fs).
Proof.
  unfold QuickDo_init. simpl.
  by destruct (load_tasks (default [] (tasks_txt fs))).
Qed.

Lemma to_string_set_completed t :
  exists rest,
    to_string t = completed_mark t ++ rest
    /\ to_string (set_completed t) = lit "+" ++ rest.
Proof. eexists. split; reflexivity. Qed.

Lemma single_line_set_completed t : single_line t -> single_line (set_completed t).
Proof.
  unfold single_line.
  destruct (to_string_set_completed t) as (rest & -> & ->).
  rewrite !elem_of_app. intros [H1 H2].
  split; (intros [Hm|Hr]; [revert Hm; compute_done|]); [apply H1|apply H2];
    by right.
Qed.

Lemma storable_set_completed t : storable t -> storable (set_completed t).
Proof. intros [Hs Hl]. split; [exact Hs|by apply single_line_set_completed]. Qed.

Lemma encodable_set_completed t :
  encodable_task t -> encodable_task (set_completed t).
Proof.
  unfold encodable_task, encodable.
  destruct (to_string_set_completed t) as (rest & -> & ->).
  rewrite !forallb_app, andb_true_iff. by intros [_ ->].
Qed.

Lemma universal_newlines_chars s c :
  c ∈ universal_newlines s -> c ∈ s \/ c = newline.
Proof.
  assert (forall n s, (length s <= n)%nat ->
            c ∈ universal_newlines s -> c ∈ s \/ c = newline) as H.
  { clear s. induction n as [|n IH]; intros [|a s] Hlen; simpl in *;
      try (by intros ?%elem_of_nil); [lia|].
    destruct (N.eqb_spec a 13) as [->|Ha].
    - destruct s as [|d s]; [intros ->%list_elem_of_singleton; by right|].
      destruct (d =? 10); (intros [->|Hc]%elem_of_cons; [by right|]).
      + destruct (IH s ltac:(simpl in *; lia) Hc) as [?|?]; [left|by right].
        by do 2 right.
      + destruct (IH (d :: s) ltac:(simpl in *; lia) Hc) as [?|?]; [left|by right].
        by right.
    - intros [->|Hc]%elem_of_cons; [left; by left|].
      destruct (IH s ltac:(lia) Hc) as [?|?]; [left; by right|by right]. }
  by apply (H (length s)).
Qed.

(** A record decoded from a line of a file that was decoded from UTF-8 can
    be encoded again. *)
Lemma file_line_encodable file line t :
  encodable file = true ->
  line ∈ lines_of (universal_newlines file) ->
  from_string line = (Some t, []) -> encodable_task t.
Proof.
  intros Hfile Hline [Hb _]%from_string_Some.
  destruct (lines_of_elem _ _ Hline) as (body & Hshape & _ & Hsub).
  apply encodable_elem. intros c Hc.
  destruct (decoded_to_string_chars line t _ Hb Hc) as [Hin|Hin].
  - apply strip_subseteq in Hin.
    assert (c ∈ body \/ c = newline) as [Hbody| ->].
    { destruct Hshape as [-> | ->]; [|by left].
      apply elem_of_app in Hin as [?|?%list_elem_of_singleton]; auto. }
    + destruct (universal_newlines_chars file c (Hsub c Hbody)) as [Hf| ->];
        [|done].
      by apply (proj1 (encodable_elem file) Hfile).
    + done.
  - by apply (proj1 (encodable_elem (lit "+-| due:")) eq_refl).
Qed.

Lemma loaded_tasks_encodable file :
  encodable file = true -> Forall encodable_task (fst (load_tasks file)).
Proof.
  intros Hfile. unfold load_tasks.
  destruct (load_loop_spec (lines_of (universal_newlines file)) [])
    as (ts & -> & Hdec & _). simpl.
  apply (Forall2_Forall_right _ _ _ _ Hdec). intros line t Hline Ht.
  apply list_elem_of_filter in Hline as [_ Hline].
  by apply (file_line_encodable file line).
Qed.
End Runs.

(** X19: the commands list, report and the help text leave both files
    with the text they had (a missing file is created empty), and remind
    leaves the tasks file so: none of them rewrites the tasks, so lines
    that could not be decoded stay in the file. *)
Theorem main_read_only (strptime : str -> option datetime)
    (strftime : datetime -> str) (now : datetime) (stdout_accepts : char -> bool)
    (a : args) (fs : files) :
  match a with
  | CmdList _ | CmdReport _ | CmdNone =>
      snd (fst (main strptime strftime now stdout_accepts a fs)) = setup_files fs
  | CmdRemind _ _ =>
      tasks_txt (snd (fst (main strptime strftime now stdout_accepts a fs)))
      = tasks_txt (setup_files fs)
  | CmdAdd _ _ _ _ | CmdComplete _ => True
  end.
Proof.
  pose proof (QuickDo_init_tasks fs) as [_ Hfile].
  unfold main. destruct (QuickDo_init fs) as [quickdo out0]. simpl in Hfile.
  destruct a as [| |p|message delay|period|]; try done; simpl.
  - by rewrite Hfile.
  - destruct (remind strftime now stdout_accepts message delay _) as [[f r] out];
      simpl; by rewrite Hfile.
  - destruct (report strptime now period quickdo) as [[[]|e] out]; simpl;
      by rewrite Hfile.
  - by rewrite Hfile.
Qed.

(** X20: after a run of add on a tasks file that was decoded from UTF-8,
    with a new record that the format can carry and whose line can be
    encoded, the run ends without an exception and the next run loads,
    without any diagnostic, exactly the records this run had loaded followed
    by the new one; lines this run could not decode are gone from the
    file. *)
Theorem add_then_reload (strptime : str -> option datetime)
    (strftime : datetime -> str) (now : datetime) (stdout_accepts : char -> bool)
    (ttl : str) (due : option str) (prio cat : str) (fs : files) :
  storable (Task_init (strftime now) ttl due prio cat) ->
  encodable_task (Task_init (strftime now) ttl due prio cat) ->
  encodable (default [] (tasks_txt fs)) = true ->
  exists text out,
    main strptime strftime now stdout_accepts (CmdAdd ttl due prio cat) fs
    = (None, mkFiles (Some text) (Some (default [] (reminders_txt fs))), out)
    /\ load_tasks text
       = (fst (load_tasks (default [] (tasks_txt fs)))
            ++ [Task_init (strftime now) ttl due prio cat], []).
Proof.
  intros Hnew Henc Hfile. pose proof (QuickDo_init_tasks fs) as [Htasks _].
  pose proof (loaded_tasks_encodable _ Hfile) as Hall.
  unfold main, add_task, save_tasks_utf8.
  destruct (QuickDo_init fs) as [quickdo out0]. simpl in Htasks. cbn [tasks].
  rewrite <- Htasks in Hall. rewrite write_lines_all
    by (apply Forall_app; split; [done|by constructor]).
  simpl. eexists _, _. split; [reflexivity|]. rewrite Htasks.
  apply load_saved_tasks, Forall_app. split; [apply loaded_tasks_storable|].
  by constructor.
Qed.

Lemma add_then_reload_witness :
  storable (Task_init (stopped_clock sample_now) (lit "call mum") None
              (lit "medium") (lit "personal"))
  /\ encodable_task (Task_init (stopped_clock sample_now) (lit "call mum") None
                       (lit "medium") (lit "personal"))
  /\ encodable (default [] (tasks_txt sample_files)) = true
  /\ exists text out,
       main strptime_ascii stopped_clock sample_now (fun _ => false)
         (CmdAdd (lit "call mum") None (lit "medium") (lit "personal")) sample_files
       = (None, mkFiles (Some text) (Some []), out)
       /\ load_tasks text
          = ([mkTask (lit "sweep") None (lit "low") (lit "home") true
                (lit "2025-01-09 08:30");
              mkTask (lit "ship it") (Some (lit "friday")) (lit "high") (lit "work")
                false (lit "2025-01-09 08:31");
              mkTask (lit "call mum") None (lit "medium") (lit "personal") false
                (lit "2025-01-10 12:00")], []).
Proof.
  assert (storable (Task_init (stopped_clock sample_now) (lit "call mum") None
                      (lit "medium") (lit "personal"))) as H
    by (repeat split; compute_done).
  assert (encodable_task (Task_init (stopped_clock sample_now) (lit "call mum") None
                            (lit "medium") (lit "personal"))) as He
    by reflexivity.
  assert (encodable (default [] (tasks_txt sample_files)) = true) as Hf
    by reflexivity.
  split; [exact H|]. split; [exact He|]. split; [exact Hf|].
  destruct (add_then_reload strptime_ascii stopped_clock sample_now (fun _ => false)
              (lit "call mum") None (lit "medium") (lit "personal") sample_files
              H He Hf)
    as (text & out & Hrun & Hload).
  exists text, out. split; [exact Hrun|]. rewrite Hload. vm_compute. reflexivity.
Defined.

(** A run of add with the title U+DCFF ends in UnicodeEncodeError and
    leaves in the file the records it had loaded, without the new one. *)
Example add_lone_surrogate_run :
  fst (main strptime_ascii stopped_clock sample_now (fun _ => false)
         (CmdAdd [56575] None (lit "medium") (lit "personal")) sample_files)
  = (Some UnicodeEncodeError,
     mkFiles
       (Some (lit "+|2025-01-09 08:30|low|home|sweep" ++ [newline]
              ++ lit "-|2025-01-09 08:31|high|work|ship it due:friday" ++ [newline]))
       (Some [])).
Proof. reflexivity. Qed.

(** X21: after a run of complete with a valid position, the next run
    loads, without any diagnostic, the records this run had loaded with the
    one at that position completed. *)
Theorem complete_then_reload (strptime : str -> option datetime)
    (strftime : datetime -> str) (now : datetime) (stdout_accepts : char -> bool)
    (p : Z) (fs : files) :
  (1 <= p <= Z.of_nat (length (fst (load_tasks (default [] (tasks_txt fs))))))%Z ->
  exists text out,
    main strptime strftime now stdout_accepts (CmdComplete p) fs
    = (None, mkFiles (Some text) (Some (default [] (reminders_txt fs))), out)
    /\ load_tasks text
       = (alter set_completed (Z.to_nat (p - 1))
            (fst (load_tasks (default [] (tasks_txt fs)))), []).
Proof.
  intros Hp. pose proof (QuickDo_init_tasks fs) as [Htasks _].
  unfold main. destruct (QuickDo_init fs) as [quickdo out0]. simpl in Htasks.
  rewrite <- Htasks in Hp.
  destruct (complete_task_cases quickdo p) as [(_ & t & Ht & ->)|(Hp' & _)]; [|lia].
  simpl. eexists _, _. split; [reflexivity|]. rewrite Htasks.
  apply load_saved_tasks.
  pose proof (loaded_tasks_storable (default [] (tasks_txt fs))) as Hall.
  generalize (Z.to_nat (p - 1)). revert Hall.
  generalize (fst (load_tasks (default [] (tasks_txt fs)))).
  induction 1 as [|x l Hx Hl IH]; intros [|n]; simpl; try done.
  - constructor; [by apply storable_set_completed|done].
  - constructor; [done|apply IH].
Qed.

Lemma complete_then_reload_witness :
  (1 <= 2 <= Z.of_nat (length (fst (load_tasks (default [] (tasks_txt sample_files))))))%Z
  /\ exists text out,
       main strptime_ascii stopped_clock sample_now (fun _ => false) (CmdComplete 2)
         sample_files
       = (None, mkFiles (Some text) (Some []), out)
       /\ load_tasks text
          = ([mkTask (lit "sweep") None (lit "low") (lit "home") true
                (lit "2025-01-09 08:30");
              mkTask (lit "ship it") (Some (lit "friday")) (lit "high") (lit "work")
                true (lit "2025-01-09 08:31")], []).
Proof.
  assert (1 <= 2 <= Z.of_nat (length (fst (load_tasks
            (default [] (tasks_txt sample_files))))))%Z as H
    by (vm_compute; split; congruence).
  split; [exact H|].
  destruct (complete_then_reload strptime_ascii stopped_clock sample_now
              (fun _ => false) 2 sample_files H) as (text & out & Hrun & Hload).
  exists text, out. split; [exact Hrun|]. rewrite Hload. vm_compute. reflexivity.
Defined.

(** ** Histories *)

Lemma same_task_later_refl t : same_task_later t t.
Proof. by repeat split. Qed.

Lemma same_task_later_trans t1 t2 t3 :
  same_task_later t1 t2 -> same_task_later t2 t3 -> same_task_later t1 t3.
Proof.
  intros (? & ? & ? & ? & ? & ?) (? & ? & ? & ? & ? & ?).
  repeat split; try congruence. auto.
Qed.

Lemma do_call_keeps q c j t :
  tasks q !! j = Some t ->
  exists t', tasks (do_call q c) !! j = Some t' /\ same_task_later t t'.
Proof.
  intros Hj. destruct c as [now_str ttl due prio cat|p]; cbn [do_call].
  - exists t. rewrite add_task_tasks.
    split; [by apply lookup_app_l_Some|apply same_task_later_refl].
  - destruct ((1 <=? p) && (p <=? Z.of_nat (length (tasks q))))%Z.
    + rewrite save_tasks_utf8_tasks. cbn [tasks].
      destruct (decide (Z.to_nat (p - 1) = j)) as [->|Hne].
      * exists (set_completed t). rewrite list_lookup_alter_eq, Hj.
        split; [done|]. by repeat split.
      * exists t. rewrite list_lookup_alter_ne by done.
        split; [done|apply same_task_later_refl].
    + exists t. split; [done|apply same_task_later_refl].
Qed.

Lemma do_call_length q c :
  (length (tasks q) <= length (tasks (do_call q c)))%nat.
Proof.
  destruct c as [now_str ttl due prio cat|p]; cbn [do_call].
  - rewrite add_task_tasks, length_app. lia.
  - destruct ((1 <=? p) && (p <=? Z.of_nat (length (tasks q))))%Z; [|done].
    rewrite save_tasks_utf8_tasks. cbn [tasks]. by rewrite length_alter.
Qed.

Lemma Forall_alter_set_completed i ts :
  Forall encodable_task ts -> Forall encodable_task (alter set_completed i ts).
Proof.
  intros H. revert i. induction H as [|x l Hx Hl IH]; intros [|n]; simpl;
    try done.
  - constructor; [by apply encodable_set_completed|done].
  - constructor; [done|apply IH].
Qed.

(** On a store whose lines can be encoded, the store after a call of
    complete_task is the one the call returns. *)
Lemma do_call_complete_task q p :
  Forall encodable_task (tasks q) ->
  fst (complete_task p q) = Ok (do_call q (CallComplete p)).
Proof.
  intros Hall. cbn [do_call].
  destruct (complete_task_cases q p) as [(Hp & t0 & _ & ->)|(Hp & ->)]; simpl.
  - destruct (Z.leb_spec 1 p), (Z.leb_spec p (Z.of_nat (length (tasks q))));
      try lia. simpl.
    by rewrite save_tasks_utf8_all by by apply Forall_alter_set_completed.
  - destruct (Z.leb_spec 1 p), (Z.leb_spec p (Z.of_nat (length (tasks q))));
      try lia; done.
Qed.

Lemma do_call_synced q c :
  tasks_file q = serialize (tasks q) -> Forall encodable_task (tasks q) ->
  call_encodable c ->
  tasks_file (do_call q c) = serialize (tasks (do_call q c))
  /\ Forall encodable_task (tasks (do_call q c)).
Proof.
  intros Hq Hall Hc. destruct c as [now_str ttl due prio cat|p].
  - assert (Forall encodable_task (tasks q ++ [Task_init now_str ttl due prio cat]))
      as Hall' by (apply Forall_app; split; [done|by constructor]).
    cbn [do_call]. unfold add_task, save_tasks_utf8. cbn [tasks].
    by rewrite (write_lines_all _ Hall').
  - pose proof (do_call_complete_task q p Hall) as Hcall.
    remember (do_call q (CallComplete p)) as q' eqn:Eq'. clear Eq'.
    destruct (complete_task_cases q p) as [(_ & t0 & _ & E)|(_ & E)];
      rewrite E in Hcall; cbn [fst] in Hcall; injection Hcall as <-; simpl.
    + split; [done|by apply Forall_alter_set_completed].
    + done.
Qed.

(** X22: whatever sequence of add_task and complete_task calls a store goes
    through, and whether or not their writes succeed, no record is removed,
    moved or edited: a record found at a position is still at that position
    afterwards, with the same title, due date, priority, category and
    creation time, and once completed it stays completed; and the store
    never shrinks.  When the lines of the records of the store and of the
    added records can all be encoded, a file that held the encoding of the
    sequence still does. *)
Theorem history_keeps_records (calls : list call) (q : QuickDo) :
  (forall j t, tasks q !! j = Some t ->
     exists t', tasks (foldl do_call q calls) !! j = Some t'
                /\ same_task_later t t')
  /\ (length (tasks q) <= length (tasks (foldl do_call q calls)))%nat
  /\ (tasks_file q = serialize (tasks q) ->
      Forall encodable_task (tasks q) -> Forall call_encodable calls ->
      tasks_file (foldl do_call q calls)
      = serialize (tasks (foldl do_call q calls))).
Proof.
  revert q. induction calls as [|c calls IH]; intros q; simpl.
  - split; [|split; [lia|done]]. intros j t Hj. exists t.
    split; [done|apply same_task_later_refl].
  - destruct (IH (do_call q c)) as (Hkeep & Hlen & Hsync).
    split; [|split].
    + intros j t Hj. destruct (do_call_keeps q c j t Hj) as (t1 & H1 & Hl1).
      destruct (Hkeep j t1 H1) as (t2 & H2 & Hl2).
      exists t2. split; [done|]. by apply (same_task_later_trans t t1 t2).
    + etrans; [|exact Hlen]. apply do_call_length.
    + intros Hq Hall Hcalls.
      destruct (do_call_synced q c Hq Hall (Forall_inv Hcalls)) as [Hq' Hall'].
      exact (Hsync Hq' Hall' (Forall_inv_tail Hcalls)).
Qed.

(** The second call raises, and so does the third: their writes stop at
    the record with the title U+DCFF, after two lines. *)
Example history_lone_surrogate :
  let q := foldl do_call sample_store
             [CallComplete 2;
              CallAdd (lit "2025-01-10 12:00") [56575] None (lit "medium")
                (lit "personal");
              CallAdd (lit "2025-01-10 12:01") (lit "call mum") None (lit "medium")
                (lit "personal")] in
  length (tasks q) = 4%nat
  /\ tasks_file q
     = lit "+|2025-01-09 08:30|medium|home|red|blue paint due:2025-01-10" ++ [newline]
       ++ lit "+|2025-01-09 08:30|high|errand|Buy milk due:2025-01-10" ++ [newline].
Proof. split; reflexivity. Qed.

Example history_sample_store :
  tasks (foldl do_call sample_store
           [CallComplete 2; CallAdd (lit "2025-01-10 12:00") (lit "call mum") None
                              (lit "medium") (lit "personal");
            CallComplete 7; CallComplete 2])
  = [paint; set_completed buy_milk;
     mkTask (lit "call mum") None (lit "medium") (lit "personal") false
       (lit "2025-01-10 12:00")].
Proof. reflexivity. Qed.

Lemma history_keeps_records_witness :
  tasks_file sample_store = serialize (tasks sample_store)
  /\ Forall encodable_task (tasks sample_store)
  /\ Forall call_encodable
       [CallComplete 2;
        CallAdd (lit "2025-01-10 12:00") (lit "call mum") None (lit "medium")
          (lit "personal")]
  /\ tasks_file
       (foldl do_call sample_store
          [CallComplete 2;
           CallAdd (lit "2025-01-10 12:00") (lit "call mum") None (lit "medium")
             (lit "personal")])
     = serialize
         (tasks
            (foldl do_call sample_store
               [CallComplete 2;
                CallAdd (lit "2025-01-10 12:00") (lit "call mum") None
                  (lit "medium") (lit "personal")])).
Proof.
  assert (tasks_file sample_store = serialize (tasks sample_store)) as H
    by reflexivity.
  assert (Forall encodable_task (tasks sample_store)) as Hall
    by (repeat constructor).
  assert (Forall call_encodable
            [CallComplete 2;
             CallAdd (lit "2025-01-10 12:00") (lit "call mum") None (lit "medium")
               (lit "personal")]) as Hcalls by (repeat constructor).
  split; [exact H|]. split; [exact Hall|]. split; [exact Hcalls|].
  exact (proj2 (proj2 (history_keeps_records
                         [CallComplete 2;
                          CallAdd (lit "2025-01-10 12:00") (lit "call mum") None
                            (lit "medium") (lit "personal")] sample_store))
           H Hall Hcalls).
Defined.

